(** * dowel.csv_output: a shallow embedding of [CsvOutput]

    [CsvOutput] logs tabular records to one CSV file whose set of columns
    grows as records with unseen keys arrive.  The development models

    - the values and the record source handed to [record],
    - the part of Python's [csv] module the class uses ([DictWriter],
      [DictReader]) at the level of CSV records: a file is the list of its
      records, a record the list of its cell texts; how the module quotes a
      cell is its own business, but what the text-mode file handle does to a
      cell on the way back ([read_text]) is modelled,
    - the class itself: [__init__], [record], [rewriteCSV], [_warn] and
      [disable_warnings], as computations over the writer's fields that may
      raise and that emit the calls made on outside objects,

    and then proves the properties of the schema growth. *)

From stdpp Require Import gmap strings list fin_maps pretty.

Open Scope string_scope.
Open Scope list_scope.

Set Warnings "-clear-no-such-hyp".

(** ** Python values *)

(** The scalars a tabular record carries.  Floating point values are left
    out: their text is Python's [repr], which is not modelled. *)
Inductive pyval :=
  | VNone
  | VStr (s : string)
  | VInt (z : Z)
  | VBool (b : bool).

#[global] Instance pyval_eq_dec : EqDecision pyval.
Proof. solve_decision. Defined.

(** The text the csv writer puts in a cell: [None] gives the empty cell, a
    string is written as it is, everything else through [str]. *)
Definition csv_text (v : pyval) : string :=
  match v with
  | VNone => ""
  | VStr s => s
  | VInt z => pretty z
  | VBool true => "True"
  | VBool false => "False"
  end.

(** ** Text read through a file handle in text mode *)

Definition CR : Ascii.ascii := Ascii.ascii_of_nat 13.
Definition LF : Ascii.ascii := Ascii.ascii_of_nat 10.

(** Universal newlines, the default of [open]: on reading, a carriage
    return followed by a line feed, and a carriage return alone, come out as
    one line feed. *)
Fixpoint universal_newlines (s : string) : string :=
  match s with
  | EmptyString => EmptyString
  | String c s' =>
      if Ascii.eqb c CR then
        String LF
          match s' with
          | EmptyString => EmptyString
          | String c' s'' =>
              if Ascii.eqb c' LF then universal_newlines s''
              else universal_newlines s'
          end
      else String c (universal_newlines s')
  end.

(** A text that reading leaves as it is: one without carriage return. *)
Definition plain (s : string) : Prop := universal_newlines s = s.

#[global] Instance plain_dec s : Decision (plain s).
Proof. unfold plain. apply _. Defined.

(** A Python [dict] with string keys.  [keys] is the order of iteration,
    [dom] the set of keys. *)
Abbreviation pydict := (gmap string pyval).

Definition keys (d : pydict) : list string := (map_to_list d).*1.

(** ** Exceptions, events and the computation monad *)

Inductive exn :=
  | ValueError (msg : string)
  | TypeError (msg : string)
  | AttributeError (msg : string)
  | CsvOutputWarning (msg : string).  (* the warning class of this module,
                                         raised as an exception *)

(** Calls made on objects outside the writer. *)
Inductive event :=
  | Mark (key : string)   (* data.mark(key) *)
  | Warn (msg : string).  (* warnings.warn(colorize(msg, 'yellow'),
                             CsvOutputWarning, stacklevel=3) *)

#[global] Instance event_eq_dec : EqDecision event.
Proof. solve_decision. Defined.

Inductive outcome (A : Type) :=
  | Returned (a : A)
  | Raised (e : exn).
Arguments Returned {A} a.
Arguments Raised {A} e.

(** What a computation over a state [S] leaves behind: how it ended, the
    state at that point, and the events emitted on the way. *)
Record result (S A : Type) := Result {
  res : outcome A;
  final : S;
  events : list event
}.
Arguments Result {S A} res final events.
Arguments res {S A} r.
Arguments final {S A} r.
Arguments events {S A} r.

Definition M (S A : Type) : Type := S → result S A.

#[global] Instance M_ret {S} : MRet (M S) :=
  λ A a s, Result (Returned a) s [].

#[global] Instance M_bind {S} : MBind (M S) :=
  λ A B k m s,
    let r := m s in
    match res r with
    | Returned a =>
        let r' := k a (final r) in
        Result (res r') (final r') (events r ++ events r')
    | Raised e => Result (Raised e) (final r) (events r)
    end.

Definition raise {S A} (e : exn) : M S A := λ s, Result (Raised e) s [].
Definition gets {S A} (f : S → A) : M S A := λ s, Result (Returned (f s)) s [].
Definition modify {S} (f : S → S) : M S unit := λ s, Result (Returned ()) (f s) [].
Definition emit {S} (ev : event) : M S unit := λ s, Result (Returned ()) s [ev].

(** [for x in l: body(x)] *)
Fixpoint for_ {S A} (l : list A) (body : A → M S unit) : M S unit :=
  match l with
  | [] => mret ()
  | x :: l => body x ;; for_ l body
  end.

(** ** The csv module *)

Module csv.

(** A CSV file, as the list of its records. *)
Abbreviation file := (list (list string)).

(** [csv.DictWriter(f, fieldnames=..., extrasaction='ignore')], with the
    default [restval=''].  [fieldnames] is whatever the caller passed,
    [None] included; the writer iterates it at each write, in the order
    [elements] gives: some fixed order for each set, as in Python, where the
    order of a set is fixed as long as the set is not changed.

    In Python the writer holds the very set object that [self._fieldnames]
    names.  Here it holds the value of the set at construction.  The two
    agree wherever a writer is used: the one place that changes the set,
    [rewriteCSV], builds a new writer over it before it writes anything. *)
Record DictWriter := { fieldnames : option (gset string) }.

#[global] Instance DictWriter_eq_dec : EqDecision DictWriter.
Proof. solve_decision. Defined.

(** [rowdict.get(key, self.restval) for key in self.fieldnames]; keys of
    [rowdict] outside [fieldnames] are ignored. *)
Definition _dict_to_list (fs : gset string) (rowdict : pydict) : list string :=
  (λ key, csv_text (default (VStr "") (rowdict !! key))) <$> elements fs.

Definition writerow (w : DictWriter) (rowdict : pydict) : M file unit :=
  match fieldnames w with
  | None => raise (TypeError "'NoneType' object is not iterable")
  | Some fs => modify (λ f, f ++ [_dict_to_list fs rowdict])
  end.

(** [header = dict(zip(self.fieldnames, self.fieldnames))] *)
Definition writeheader (w : DictWriter) : M file unit :=
  match fieldnames w with
  | None => raise (TypeError "'NoneType' object is not iterable")
  | Some fs => writerow w (set_to_map (λ key, (key, VStr key)) fs)
  end.

(** One row of [csv.DictReader]: [dict(zip(fieldnames, row))], and for a
    short row the missing fields get [restval], which is [None].  The cells
    of a long row beyond the header go under the key [None], which is no
    column name: no lookup by column and no write sees them, so they are
    left out. *)
Definition reader_row (fields row : list string) : pydict :=
  let d := foldl (λ d kv, <[kv.1 := VStr kv.2]> d) ∅ (zip fields row) in
  foldl (λ d key, <[key := VNone]> d) d (drop (length row) fields).

(** [csv.DictReader(f)] read to the end: the first record gives the field
    names, blank records are skipped. *)
Definition DictReader (f : file) : list pydict :=
  match f with
  | [] => []
  | fields :: rows =>
      reader_row fields <$> filter (λ row, row ≠ []) rows
  end.

End csv.

(** What a [csv] reader gets from the log file.  The handle is opened in
    mode [w+], a text mode, with the default newline handling: inside a
    quoted cell too, every carriage return, alone or before a line feed,
    reaches the reader as a line feed.  (What is written goes to the file as
    it is, as on POSIX systems.) *)
Definition read_text (f : csv.file) : csv.file :=
  (λ rec : list string, universal_newlines <$> rec) <$> f.

(** ** The record source *)

(** Modelled from the spec: [dowel.TabularInput], which this file imports,
    is the record source "exposing (a) a primitive mapping view of its
    current values, and (b) a way to mark a given key as consumed".  The
    mapping view is a dict of the source's own making each time it is asked
    for; marking is the event [Mark]. *)
Record TabularInput := { as_primitive_dict : pydict }.

(** What [record] may be handed: a [TabularInput], a string (the text
    records of the logger), or an object of any other class. *)
Inductive pyobj :=
  | ObjTabular (data : TabularInput)
  | ObjStr (text : string)
  | ObjOther (class_name : string).

Definition isinstance_TabularInput (data : pyobj) : bool :=
  match data with ObjTabular _ => true | _ => false end.

(** ** CsvOutput *)

(** The fields of the class, and one probe: [truncated] is no attribute of
    the class but a count kept on the file handle of the calls of its
    [truncate], by which a rewrite of the file is told from an append (the
    rewrite-count probe the spec speaks of). *)
Record CsvOutput := {
  _log_file : csv.file;
  _writer : option csv.DictWriter;
  _fieldnames : option (gset string);
  _warned_once : gset string;
  _disable_warnings : bool;
  truncated : nat
}.

Definition set_log_file (f : csv.file) (self : CsvOutput) : CsvOutput :=
  {| _log_file := f; _writer := _writer self; _fieldnames := _fieldnames self;
     _warned_once := _warned_once self;
     _disable_warnings := _disable_warnings self;
     truncated := truncated self |}.

Definition set_writer (w : option csv.DictWriter) (self : CsvOutput) : CsvOutput :=
  {| _log_file := _log_file self; _writer := w; _fieldnames := _fieldnames self;
     _warned_once := _warned_once self;
     _disable_warnings := _disable_warnings self;
     truncated := truncated self |}.

Definition set_fieldnames (fs : option (gset string)) (self : CsvOutput) : CsvOutput :=
  {| _log_file := _log_file self; _writer := _writer self; _fieldnames := fs;
     _warned_once := _warned_once self;
     _disable_warnings := _disable_warnings self;
     truncated := truncated self |}.

Definition set_warned_once (ws : gset string) (self : CsvOutput) : CsvOutput :=
  {| _log_file := _log_file self; _writer := _writer self;
     _fieldnames := _fieldnames self; _warned_once := ws;
     _disable_warnings := _disable_warnings self;
     truncated := truncated self |}.

Definition set_disable_warnings (b : bool) (self : CsvOutput) : CsvOutput :=
  {| _log_file := _log_file self; _writer := _writer self;
     _fieldnames := _fieldnames self; _warned_once := _warned_once self;
     _disable_warnings := b; truncated := truncated self |}.

(** [self._log_file.truncate(0)] and [self._log_file.seek(0)]: the file is
    emptied, and the probe counts the call. *)
Definition truncate_log_file (self : CsvOutput) : CsvOutput :=
  {| _log_file := []; _writer := _writer self; _fieldnames := _fieldnames self;
     _warned_once := _warned_once self;
     _disable_warnings := _disable_warnings self;
     truncated := S (truncated self) |}.

(** Modelled from the spec: the base class [FileOutput] is not in this file;
    its constructor opens the file "create-or-truncate, readable and
    writable" (mode [w+]), so the log file starts empty. *)
Definition __init__ (file_name : string) : CsvOutput :=
  {| _log_file := []; _writer := None; _fieldnames := None;
     _warned_once := ∅; _disable_warnings := false; truncated := 0 |}.

(** A method of the csv writer run on [self._log_file]. *)
Definition on_log_file {A} (m : M csv.file A) : M CsvOutput A :=
  λ self,
    let r := m (_log_file self) in
    Result (res r) (set_log_file (final r) self) (events r).

(** [self._writer.method(...)] *)
Definition with_writer {A} (method : csv.DictWriter → M csv.file A) (attr : string)
    : M CsvOutput A :=
  w ← gets _writer;
  match w with
  | None =>
      raise (AttributeError ("'NoneType' object has no attribute '" +:+ attr +:+ "'"))
  | Some w => on_log_file (method w)
  end.

(** [if key not in d: d[key] = ''] *)
Definition set_blank (d : pydict) (key : string) : pydict :=
  if decide (key ∈ dom d) then d else <[key := VStr ""]> d.

(** [for key in self._fieldnames: if key not in d: d[key] = ''], giving the
    dict after the loop. *)
Definition pad_blank (d : pydict) : M CsvOutput pydict :=
  fs ← gets _fieldnames;
  match fs with
  | None => raise (TypeError "'NoneType' object is not iterable")
  | Some fs => mret (foldl set_blank d (elements fs))
  end.

(** [if key not in self._fieldnames: self._fieldnames.add(key)] *)
Definition add_fieldname (key : string) : M CsvOutput unit :=
  fs ← gets _fieldnames;
  match fs with
  | None => raise (TypeError "argument of type 'NoneType' is not iterable")
  | Some fs =>
      if decide (key ∈ fs) then mret ()
      else modify (set_fieldnames (Some ({[key]} ∪ fs)))
  end.

(** One turn of the loop that writes the stored rows back: the keys not
    set in the row are set to blank, and the row is written. *)
Definition write_back (row : pydict) : M CsvOutput unit :=
  row ← pad_blank row;
  with_writer (λ w, csv.writerow w row) "writerow".

Definition rewriteCSV (fieldnames : list string) : M CsvOutput unit :=
  (* read data from file into a list *)
  csvdata ← gets (λ self, csv.DictReader (read_text (_log_file self)));
  (* clearing the file *)
  modify truncate_log_file;;
  (* output data back to the file with extra fields *)
  for_ fieldnames add_fieldname;;
  fs ← gets _fieldnames;
  modify (set_writer (Some {| csv.fieldnames := fs |}));;
  with_writer csv.writeheader "writeheader";;
  for_ csvdata write_back.

(** [self._fieldnames = set(datadict.keys())], a writer over that set, and
    the header line. *)
Definition write_first_header (datadict : pydict) : M CsvOutput unit :=
  modify (set_fieldnames (Some (list_to_set (keys datadict))));;
  fs ← gets _fieldnames;
  modify (set_writer (Some {| csv.fieldnames := fs |}));;
  with_writer csv.writeheader "writeheader".

(** [if not self._fieldnames.issuperset(datadict.keys()):
       self.rewriteCSV(datadict.keys())] *)
Definition grow_columns (datadict : pydict) : M CsvOutput unit :=
  fs ← gets _fieldnames;
  match fs with
  | None =>
      raise (AttributeError "'NoneType' object has no attribute 'issuperset'")
  | Some fs =>
      if bool_decide (list_to_set (keys datadict) ⊆ fs) then mret ()
      else rewriteCSV (keys datadict)
  end.

Definition record (data : pyobj) (prefix : string) : M CsvOutput unit :=
  match data with
  | ObjTabular t =>
      let datadict := as_primitive_dict t in
      w ← gets _writer;
      if bool_decide (keys datadict = []) && bool_decide (w = None) then mret ()
      else
        (* If its the first call to record, then write header *)
        (if bool_decide (w = None) then write_first_header datadict
         else mret ());;
        (* If new keys are added, then add extra columns to the csv file *)
        grow_columns datadict;;
        (* If any key is not present in the latest row, add a blank
           key-value pair *)
        datadict ← pad_blank datadict;
        with_writer (λ w, csv.writerow w datadict) "writerow";;
        for_ (keys datadict) (λ k, emit (Mark k))
  | _ => raise (ValueError "Unacceptable type.")
  end.

(** What the warnings filter in force does with a [CsvOutputWarning]: it
    lets [warnings.warn] return (whether the warning is shown or not), or,
    as under [-W error], it makes [warnings.warn] raise the warning. *)
Inductive warn_filter :=
  | FilterPass
  | FilterError.

#[global] Instance warn_filter_eq_dec : EqDecision warn_filter.
Proof. solve_decision. Defined.

(** [warnings.warn(colorize(msg, 'yellow'), CsvOutputWarning, stacklevel=3)]
    under the filter [flt]: the call is made, and then returns or raises. *)
Definition warnings_warn {S} (flt : warn_filter) (msg : string) : M S unit :=
  emit (Warn msg);;
  match flt with
  | FilterPass => mret ()
  | FilterError => raise (CsvOutputWarning msg)
  end.

(** [_warn], called while the warnings filter is [flt]. *)
Definition _warn (flt : warn_filter) (msg : string) : M CsvOutput string :=
  disabled ← gets _disable_warnings;
  warned ← gets _warned_once;
  (if negb disabled && bool_decide (msg ∉ warned) then warnings_warn flt msg
   else mret ());;
  modify (λ self, set_warned_once ({[msg]} ∪ _warned_once self) self);;
  mret msg.

Definition disable_warnings : M CsvOutput unit :=
  modify (set_disable_warnings true).

(** ** Sessions: the calls made on one writer, in order *)

(** A call of [_warn] comes with the warnings filter in force when it is
    made. *)
Inductive call :=
  | CallRecord (data : pyobj) (prefix : string)
  | CallWarn (msg : string) (flt : warn_filter)
  | CallDisableWarnings.

Definition invoke (c : call) : M CsvOutput unit :=
  match c with
  | CallRecord data prefix => record data prefix
  | CallWarn msg flt => _warn flt msg;; mret ()
  | CallDisableWarnings => disable_warnings
  end.

(** The caller goes on with the writer after a call that raised. *)
Definition try_ {S} (m : M S unit) : M S unit :=
  λ s, let r := m s in Result (Returned ()) (final r) (events r).

Definition session (cs : list call) : M CsvOutput unit :=
  for_ cs (λ c, try_ (invoke c)).

(** The rows presented to [record] in a session, oldest first. *)
Definition row_of (c : call) : option pydict :=
  match c with
  | CallRecord (ObjTabular t) _ => Some (as_primitive_dict t)
  | _ => None
  end.

Definition presented (cs : list call) : list pydict := omap row_of cs.

(** The union of the keys of the rows presented. *)
Definition keys_seen (cs : list call) : gset string :=
  ⋃ (dom <$> presented cs).

(** The rows that were written: all those presented, from the first row
    that has a key. *)
Fixpoint from_first_keyed (rows : list pydict) : list pydict :=
  match rows with
  | [] => []
  | d :: rows' => if decide (d = ∅) then from_first_keyed rows' else rows
  end.

Definition written (cs : list call) : list pydict :=
  from_first_keyed (presented cs).

(** ** Observations on the file *)

Definition header (f : csv.file) : list string := default [] (head f).
Definition data_rows (f : csv.file) : csv.file := tail f.

(** The columns on disk, as a set; an empty file has none. *)
Definition header_columns (f : csv.file) : gset string := list_to_set (header f).

(** The ColumnSet of the spec: no columns before the first header. *)
Definition ColumnSet (self : CsvOutput) : gset string :=
  default ∅ (_fieldnames self).

(** The cell of [row] under column [key] of header [hd], by position. *)
Fixpoint cell (hd row : list string) (key : string) : option string :=
  match hd, row with
  | h :: hd', c :: row' => if decide (h = key) then Some c else cell hd' row' key
  | _, _ => None
  end.

(** The writer in use iterates the set that [self._fieldnames] names: both
    construction sites pass [fieldnames=self._fieldnames]. *)
Definition shares_fieldnames (self : CsvOutput) : Prop :=
  match _writer self with
  | None => _fieldnames self = None
  | Some w => csv.fieldnames w = _fieldnames self ∧ is_Some (_fieldnames self)
  end.

#[global] Instance shares_fieldnames_dec self : Decision (shares_fieldnames self).
Proof. unfold shares_fieldnames. destruct (_writer self); apply _. Defined.

(** The text a row dict [d] shows under column [key]. *)
Definition shown (d : pydict) (key : string) : string :=
  match d !! key with
  | Some v => csv_text v
  | None => ""
  end.

(** ** Descriptions of states and computations *)

(** The writer [self] once it holds the columns [fs], a writer over them,
    and the file [f]. *)
Definition with_columns (fs : gset string) (f : csv.file) (self : CsvOutput)
    : CsvOutput :=
  {| _log_file := f;
     _writer := Some {| csv.fieldnames := Some fs |};
     _fieldnames := Some fs;
     _warned_once := _warned_once self;
     _disable_warnings := _disable_warnings self;
     truncated := truncated self |}.

(** The record [rec] stores the row [d] under the columns [fs]: the keys of
    the row are columns, the record has a cell per column, and, if no column
    name holds a carriage return, the
    cell under each column is the text the row shows there, as it was
    written or as it came back from a reading. *)
Definition stored (fs : gset string) (rec : list string) (d : pydict) : Prop :=
  dom d ⊆ fs ∧
  ∃ c : string → string,
    rec = c <$> elements fs ∧
    (set_Forall plain fs →
     ∀ key, key ∈ fs →
            c key = shown d key ∨ c key = universal_newlines (shown d key)).

(** What the writer holds once the rows [rows] have been presented: nothing
    before the first row with a key, and from then on the header of all the
    keys seen and one record per row since, each under every column. *)
Definition holds_rows (self : CsvOutput) (rows : list pydict) : Prop :=
  let fs : gset string := ⋃ (dom <$> rows) in
  match from_first_keyed rows with
  | [] => _log_file self = [] ∧ _writer self = None ∧ _fieldnames self = None
  | w =>
      (∃ recs, _log_file self = elements fs :: recs ∧ Forall2 (stored fs) recs w) ∧
      _writer self = Some {| csv.fieldnames := Some fs |} ∧
      _fieldnames self = Some fs
  end.

(** A row without carriage return: in no key, and in the text of no value. *)
Definition plain_row (d : pydict) : Prop :=
  map_Forall (λ key v, plain key ∧ plain (csv_text v)) d.

#[global] Instance plain_row_dec d : Decision (plain_row d).
Proof. unfold plain_row. apply _. Defined.

(** The messages of the warnings among some events, oldest first. *)
Definition warnings (evs : list event) : list string :=
  omap (λ ev, match ev with Warn msg => Some msg | Mark _ => None end) evs.

Definition is_record (c : call) : Prop :=
  match c with CallRecord _ _ => True | _ => False end.

#[global] Instance is_record_dec c : Decision (is_record c).
Proof. destruct c; apply _. Defined.

(** A computation that has nothing to do with warnings: it emits none and
    leaves the two fields of the warning machinery alone, however it ends. *)
Definition quiet {A} (m : M CsvOutput A) : Prop :=
  ∀ self,
    _warned_once (final (m self)) = _warned_once self ∧
    _disable_warnings (final (m self)) = _disable_warnings self ∧
    warnings (events (m self)) = [].

(** The claim C6 as the spec words it: the keys marked by a call are the
    keys of the caller's row, no more and no fewer. *)
Definition marks_exactly_row_keys (self : CsvOutput) (t : TabularInput)
    (prefix : string) : Prop :=
  ∀ k, Mark k ∈ events (record (ObjTabular t) prefix self) ↔
       k ∈ dom (as_primitive_dict t).

(** The scenario of the spec: [{x: 1}], then [{x: 2, y: 5}], then
    [{x: 3, y: 6}]. *)
Definition scenario : list call :=
  [ CallRecord (ObjTabular {| as_primitive_dict := {[ "x" := VInt 1 ]} |}) "";
    CallRecord
      (ObjTabular {| as_primitive_dict := <[ "x" := VInt 2 ]> {[ "y" := VInt 5 ]} |}) "";
    CallRecord
      (ObjTabular {| as_primitive_dict := <[ "x" := VInt 3 ]> {[ "y" := VInt 6 ]} |}) "" ].

(** ** The types a writer accepts *)

(** The classes of the objects of [pyobj]; none is a subclass of another. *)
Inductive pyclass :=
  | ClsTabularInput
  | ClsStr
  | ClsOther (name : string).

#[global] Instance pyclass_eq_dec : EqDecision pyclass.
Proof. solve_decision. Defined.




(** The message [msg] is passed to [_warn] at some point of the calls [cs]
    before any call to [disable_warnings]. *)
Definition warned_while_enabled (msg : string) (cs : list call) : Prop :=
  ∃ cs1 cs2 flt,
    cs = cs1 ++ CallWarn msg flt :: cs2 ∧ CallDisableWarnings ∉ cs1.

(** A call other than a [_warn] made under a filter that raises. *)
Definition warn_passes (c : call) : Prop :=
  match c with
  | CallWarn _ FilterError => False
  | _ => True
  end.

#[global] Instance warn_passes_dec c : Decision (warn_passes c).
Proof. destruct c as [| ? []|]; apply _. Defined.

(** The writer with its warning machinery as at the start. *)
Definition unwarned (self : CsvOutput) : CsvOutput :=
  set_disable_warnings false (set_warned_once ∅ self).

(** The claim C8 as the spec words it, for what regards raising and
    repeating: [_warn] never raises, and no message is emitted twice. *)
Definition warns_once_and_never_raises : Prop :=
  (∀ flt msg self, res (_warn flt msg self) = Returned msg) ∧
  (∀ cs file_name, NoDup (warnings (events (session cs (__init__ file_name))))).

(** * Proofs *)

(** Case analysis on every [decide] of a goal, the impossible cases closed
    by set reasoning. *)
Ltac solve_decides :=
  repeat case_decide; try done; exfalso; set_solver.

(** A decidable proposition on concrete data, settled by evaluation. *)
Ltac decide_by_compute :=
  apply (bool_decide_unpack _); vm_compute; exact I.

(** ** Dicts and sets *)

Lemma keys_dom (d : pydict) : list_to_set (keys d) = dom d.
Proof.
  apply set_eq. intros k. unfold keys.
  rewrite elem_of_list_to_set, elem_of_dom, list_elem_of_fmap. split.
  - intros [[k' v] [-> Hin]]. apply elem_of_map_to_list in Hin. eauto.
  - intros [v Hv]. exists (k, v). split; [done|]. by apply elem_of_map_to_list.
Qed.

Lemma keys_nil (d : pydict) : keys d = [] ↔ d = ∅.
Proof.
  unfold keys. rewrite <- map_to_list_empty_iff. split.
  - apply fmap_nil_inv.
  - by intros ->.
Qed.

Lemma elem_of_keys (d : pydict) k : k ∈ keys d ↔ k ∈ dom d.
Proof. by rewrite <- keys_dom, elem_of_list_to_set. Qed.

Lemma shown_default (d : pydict) k :
  csv_text (default (VStr "") (d !! k)) = shown d k.
Proof. unfold shown. by destruct (d !! k). Qed.

Lemma dict_to_list_shown fs (d : pydict) :
  csv._dict_to_list fs d = shown d <$> elements fs.
Proof.
  unfold csv._dict_to_list. apply list_fmap_ext. intros _ k _. apply shown_default.
Qed.

Lemma dict_to_list_ext fs (d d' : pydict) :
  (∀ k, k ∈ fs → shown d k = shown d' k) →
  csv._dict_to_list fs d = csv._dict_to_list fs d'.
Proof.
  intros H. rewrite !dict_to_list_shown. apply list_fmap_ext.
  intros i k Hk. apply H. apply elem_of_elements. by eapply list_elem_of_lookup_2.
Qed.

(** Padding with blanks: what a lookup sees afterwards. *)
Lemma foldl_set_blank_lookup (l : list string) (d : pydict) k :
  foldl set_blank d l !! k =
    match d !! k with
    | Some v => Some v
    | None => if decide (k ∈ l) then Some (VStr "") else None
    end.
Proof.
  revert d. induction l as [|x l IH]; intros d; cbn [foldl].
  - destruct (d !! k); [done|]. solve_decides.
  - rewrite IH. unfold set_blank. destruct (decide (x ∈ dom d)) as [Hx|Hx].
    + destruct (d !! k) eqn:Hk; [done|].
      assert (k ≠ x) by (intros ->; apply elem_of_dom in Hx as [? ?]; congruence).
      solve_decides.
    + destruct (decide (k = x)) as [->|Hne].
      * rewrite lookup_insert_eq. apply not_elem_of_dom in Hx. rewrite Hx.
        solve_decides.
      * rewrite lookup_insert_ne by done. destruct (d !! k); [done|].
        solve_decides.
Qed.

Lemma shown_foldl_set_blank (l : list string) (d : pydict) k :
  shown (foldl set_blank d l) k = shown d k.
Proof.
  unfold shown. rewrite foldl_set_blank_lookup.
  destruct (d !! k); [done|]. by destruct (decide (k ∈ l)).
Qed.

Lemma dom_foldl_set_blank (l : list string) (d : pydict) :
  dom (foldl set_blank d l) = dom d ∪ list_to_set l.
Proof.
  apply set_eq. intros k.
  rewrite elem_of_union, elem_of_list_to_set, !elem_of_dom, foldl_set_blank_lookup.
  unfold is_Some. destruct (d !! k) eqn:Hk; [naive_solver|].
  case_decide; naive_solver.
Qed.

(** Reading back a record that was written under the same header. *)
Lemma foldl_zip_lookup (fields : list string) (f : string → string) (d0 : pydict) k :
  foldl (λ d kv, <[kv.1 := VStr kv.2]> d) d0 (zip fields (f <$> fields)) !! k =
    if decide (k ∈ fields) then Some (VStr (f k)) else d0 !! k.
Proof.
  revert d0. induction fields as [|x fields IH]; intros d0; cbn [foldl zip zip_with fmap list_fmap].
  - solve_decides.
  - rewrite IH. cbn [fst snd]. destruct (decide (k = x)) as [->|Hne].
    + rewrite lookup_insert_eq. solve_decides.
    + rewrite lookup_insert_ne by done.
      solve_decides.
Qed.

Lemma reader_row_lookup (fields : list string) (f : string → string) k :
  csv.reader_row fields (f <$> fields) !! k =
    if decide (k ∈ fields) then Some (VStr (f k)) else None.
Proof.
  unfold csv.reader_row. rewrite length_fmap, drop_all. simpl.
  by rewrite foldl_zip_lookup, lookup_empty.
Qed.

Lemma shown_reader_row fs (d : pydict) k :
  shown (csv.reader_row (elements fs) (csv._dict_to_list fs d)) k =
    if decide (k ∈ fs) then shown d k else "".
Proof.
  rewrite dict_to_list_shown. unfold shown at 1. rewrite reader_row_lookup.
  destruct (decide (k ∈ elements fs)) as [Hk|Hk]; rewrite elem_of_elements in Hk.
  - by rewrite decide_True.
  - by rewrite decide_False.
Qed.

Lemma dict_to_list_set_blank fs (l : list string) (d : pydict) :
  csv._dict_to_list fs (foldl set_blank d l) = csv._dict_to_list fs d.
Proof.
  apply dict_to_list_ext. intros k _. apply shown_foldl_set_blank.
Qed.

Lemma shown_not_in_dom (d : pydict) k : k ∉ dom d → shown d k = "".
Proof. intros H. apply not_elem_of_dom in H. unfold shown. by rewrite H. Qed.

(** A row written under [fs], read back and written again under another
    set, is the row written under that set at once. *)
Lemma dict_to_list_reread fs fs' (d : pydict) :
  dom d ⊆ fs →
  csv._dict_to_list fs' (csv.reader_row (elements fs) (csv._dict_to_list fs d)) =
  csv._dict_to_list fs' d.
Proof.
  intros Hd. apply dict_to_list_ext. intros k _.
  rewrite shown_reader_row.
  destruct (decide (k ∈ fs)); [done|].
  symmetry. apply shown_not_in_dom. set_solver.
Qed.

(** The header record is the list of field names. *)
Lemma dict_to_list_header fs :
  csv._dict_to_list fs (set_to_map (λ key, (key, VStr key)) fs) = elements fs.
Proof.
  rewrite dict_to_list_shown. rewrite <- (list_fmap_id (elements fs)) at 2.
  apply list_fmap_ext. intros i k Hk.
  apply list_elem_of_lookup_2, elem_of_elements in Hk.
  unfold shown.
  assert ((set_to_map (λ key, (key, VStr key)) fs : pydict) !! k = Some (VStr k)) as ->.
  { apply lookup_set_to_map; [|by exists k]. by intros ?? _ _ ?. }
  done.
Qed.

Lemma filter_all {A} (P : A → Prop) `{∀ x, Decision (P x)} (l : list A) :
  Forall P l → filter P l = l.
Proof.
  induction 1 as [|x l Hx _ IH]; [done|].
  by rewrite filter_cons_True, IH.
Qed.

Lemma DictReader_written fs (rows : list pydict) :
  fs ≠ ∅ →
  csv.DictReader (elements fs :: (csv._dict_to_list fs <$> rows)) =
    (λ d, csv.reader_row (elements fs) (csv._dict_to_list fs d)) <$> rows.
Proof.
  intros Hne. unfold csv.DictReader.
  rewrite filter_all.
  - by rewrite <- list_fmap_compose.
  - apply Forall_forall. intros row [d [-> _]]%list_elem_of_fmap Hnil.
    rewrite dict_to_list_shown in Hnil. apply fmap_nil_inv in Hnil.
    apply elements_empty_inv in Hnil. apply Hne. by apply leibniz_equiv.
Qed.

(** ** Running computations *)

Lemma result_eta {S A} (r : result S A) :
  Result (res r) (final r) (events r) = r.
Proof. by destruct r. Qed.

Lemma bind_returned {S A B} (m : M S A) (k : A → M S B) s a s' evs :
  m s = Result (Returned a) s' evs →
  (m ≫= k) s =
    Result (res (k a s')) (final (k a s')) (evs ++ events (k a s')).
Proof. intros H. unfold mbind, M_bind. by rewrite H. Qed.

Lemma bind_pure {S A B} (m : M S A) (k : A → M S B) s a s' :
  m s = Result (Returned a) s' [] → (m ≫= k) s = k a s'.
Proof. intros H. rewrite (bind_returned _ _ _ _ _ _ H). apply result_eta. Qed.

Lemma bind_raised {S A B} (m : M S A) (k : A → M S B) s e s' evs :
  m s = Result (Raised e) s' evs → (m ≫= k) s = Result (Raised e) s' evs.
Proof. intros H. unfold mbind, M_bind. by rewrite H. Qed.

Lemma for_app {S A} (l1 l2 : list A) (body : A → M S unit) s :
  for_ (l1 ++ l2) body s = (for_ l1 body;; for_ l2 body) s.
Proof.
  revert s. induction l1 as [|x l1 IH]; intros s; simpl.
  - unfold mbind, M_bind, mret, M_ret. simpl. by rewrite result_eta.
  - unfold mbind, M_bind in *. simpl.
    destruct (body x s) as [[[]|e] s1 ev1]; simpl; [|done].
    rewrite IH. destruct (for_ l1 body s1) as [[[]|e] s2 ev2]; simpl; [|done].
    by rewrite app_assoc.
Qed.

(** ** The fields of the writer *)

Lemma set_fieldnames_same fs self :
  _fieldnames self = fs → set_fieldnames fs self = self.
Proof. destruct self. simpl. by intros ->. Qed.

Lemma set_log_file_same f self :
  _log_file self = f → set_log_file f self = self.
Proof. destruct self. simpl. by intros ->. Qed.

(** ** The steps of [rewriteCSV] and [record] *)

Lemma for_add_fieldname (l : list string) self fs :
  _fieldnames self = Some fs →
  for_ l add_fieldname self =
    Result (Returned ()) (set_fieldnames (Some (fs ∪ list_to_set l)) self) [].
Proof.
  revert self fs. induction l as [|key l IH]; intros self fs Hfs.
  - simpl. rewrite union_empty_r_L. by rewrite set_fieldnames_same.
  - cbn [for_]. destruct (decide (key ∈ fs)) as [Hin|Hin].
    + rewrite (bind_pure _ _ _ () self).
      * rewrite (IH _ fs Hfs). do 3 f_equal. set_solver.
      * unfold add_fieldname, gets, mbind, M_bind. simpl. rewrite Hfs.
        by rewrite decide_True.
    + rewrite (bind_pure _ _ _ () (set_fieldnames (Some ({[key]} ∪ fs)) self)).
      * rewrite (IH _ ({[key]} ∪ fs)) by done.
        destruct self; unfold set_fieldnames; simpl. do 3 f_equal. set_solver.
      * unfold add_fieldname, gets, mbind, M_bind. simpl. rewrite Hfs.
        by rewrite decide_False.
Qed.

Lemma with_writer_writerow self fs (row : pydict) attr :
  _writer self = Some {| csv.fieldnames := Some fs |} →
  with_writer (λ w, csv.writerow w row) attr self =
    Result (Returned ())
      (set_log_file (_log_file self ++ [csv._dict_to_list fs row]) self) [].
Proof.
  intros Hw. unfold with_writer, gets, mbind, M_bind. simpl. by rewrite Hw.
Qed.

Lemma with_writer_writeheader self fs attr :
  _writer self = Some {| csv.fieldnames := Some fs |} →
  with_writer csv.writeheader attr self =
    Result (Returned ()) (set_log_file (_log_file self ++ [elements fs]) self) [].
Proof.
  intros Hw. unfold with_writer, gets, mbind, M_bind. simpl. rewrite Hw.
  unfold on_log_file, csv.writeheader, csv.writerow. simpl.
  by rewrite dict_to_list_header.
Qed.

Lemma pad_blank_run self fs (d : pydict) :
  _fieldnames self = Some fs →
  pad_blank d self = Result (Returned (foldl set_blank d (elements fs))) self [].
Proof.
  intros Hfs. unfold pad_blank, gets, mbind, M_bind. simpl. by rewrite Hfs.
Qed.

Lemma for_write_back (rows : list pydict) self fs :
  _fieldnames self = Some fs →
  _writer self = Some {| csv.fieldnames := Some fs |} →
  for_ rows write_back self =
    Result (Returned ())
      (set_log_file (_log_file self ++ (csv._dict_to_list fs <$> rows)) self) [].
Proof.
  revert self. induction rows as [|row rows IH]; intros self Hfs Hw.
  - simpl. rewrite app_nil_r. by rewrite set_log_file_same.
  - cbn [for_].
    rewrite (bind_pure _ _ _ ()
               (set_log_file (_log_file self ++ [csv._dict_to_list fs row]) self)).
    + rewrite IH by done. simpl. by rewrite <- app_assoc.
    + unfold write_back. rewrite (bind_pure _ _ _ _ _ (pad_blank_run _ _ _ Hfs)).
      rewrite (with_writer_writerow _ fs) by done.
      by rewrite dict_to_list_set_blank.
Qed.

(** The [Mark] events of [for k in datadict.keys(): data.mark(k)]. *)
Lemma for_mark {S} (l : list string) (s : S) :
  for_ l (λ k, emit (Mark k)) s = Result (Returned ()) s (Mark <$> l).
Proof.
  induction l as [|k l IH]; [done|].
  cbn [for_]. rewrite (bind_returned _ _ s () s [Mark k]) by done.
  by rewrite IH.
Qed.

Lemma rewriteCSV_run (l : list string) self fs :
  _fieldnames self = Some fs →
  rewriteCSV l self =
    Result (Returned ())
      (with_columns (fs ∪ list_to_set l)
         (elements (fs ∪ list_to_set l) ::
            (csv._dict_to_list (fs ∪ list_to_set l) <$>
               csv.DictReader (read_text (_log_file self))))
         (truncate_log_file self)) [].
Proof.
  intros Hfs. unfold rewriteCSV.
  rewrite (bind_pure _ _ self (csv.DictReader (read_text (_log_file self))) self)
    by done.
  cbv beta.
  rewrite (bind_pure _ _ self () (truncate_log_file self)) by done. cbv beta.
  rewrite (bind_pure _ _ _ () _
             (for_add_fieldname l (truncate_log_file self) fs Hfs)).
  cbv beta.
  set (fs' := fs ∪ list_to_set l).
  set (s1 := set_fieldnames (Some fs') (truncate_log_file self)).
  rewrite (bind_pure _ _ s1 (Some fs') s1) by done. cbv beta.
  set (s2 := set_writer (Some {| csv.fieldnames := Some fs' |}) s1).
  rewrite (bind_pure _ _ s1 () s2) by done. cbv beta.
  rewrite (bind_pure _ _ s2 () _ (with_writer_writeheader s2 fs' _ eq_refl)). cbv beta.
  by rewrite (for_write_back _ _ fs').
Qed.

Lemma foldl_set_blank_id (l : list string) (d : pydict) :
  (∀ k, k ∈ l → k ∈ dom d) → foldl set_blank d l = d.
Proof.
  induction l as [|x l IH]; intros H; [done|].
  cbn [foldl]. unfold set_blank at 2. rewrite decide_True by set_solver.
  apply IH. set_solver.
Qed.

Lemma record_no_keys self t prefix :
  _writer self = None → as_primitive_dict t = ∅ →
  record (ObjTabular t) prefix self = Result (Returned ()) self [].
Proof.
  intros Hw Hd. unfold record. rewrite (bind_pure _ _ self None self). cbv beta.
  - by rewrite Hd.
  - unfold gets. by rewrite Hw.
Qed.

(** The tail of [record], from the padding of the row on. *)
Lemma record_tail self fs (d : pydict) :
  _fieldnames self = Some fs →
  _writer self = Some {| csv.fieldnames := Some fs |} →
  (datadict ← pad_blank d;
   with_writer (λ w, csv.writerow w datadict) "writerow";;
   for_ (keys datadict) (λ k, emit (Mark k))) self =
    Result (Returned ())
      (set_log_file (_log_file self ++ [csv._dict_to_list fs d]) self)
      (Mark <$> keys (foldl set_blank d (elements fs))).
Proof.
  intros Hfs Hw.
  rewrite (bind_pure _ _ _ _ _ (pad_blank_run _ _ d Hfs)). cbv beta.
  rewrite (bind_pure _ _ _ _ _ (with_writer_writerow _ fs _ _ Hw)). cbv beta.
  by rewrite for_mark, dict_to_list_set_blank.
Qed.

Lemma record_first self t prefix :
  _writer self = None → as_primitive_dict t ≠ ∅ →
  let d := as_primitive_dict t in
  record (ObjTabular t) prefix self =
    Result (Returned ())
      (with_columns (dom d)
         (_log_file self ++ [elements (dom d); csv._dict_to_list (dom d) d]) self)
      (Mark <$> keys d).
Proof.
  intros Hw Hd d. unfold record. fold d.
  rewrite (bind_pure _ _ self None self) by (unfold gets; by rewrite Hw). cbv beta.
  rewrite bool_decide_eq_false_2 by (by rewrite keys_nil).
  rewrite bool_decide_eq_true_2 by done. cbn [andb].
  set (s1 := set_fieldnames (Some (dom d)) self).
  set (s2 := set_writer (Some {| csv.fieldnames := Some (dom d) |}) s1).
  set (s3 := set_log_file (_log_file s2 ++ [elements (dom d)]) s2).
  rewrite (bind_pure _ _ self () s3). cbv beta.
  2:{ unfold write_first_header. rewrite keys_dom.
      rewrite (bind_pure _ _ self () s1) by done. cbv beta.
      rewrite (bind_pure _ _ s1 (Some (dom d)) s1) by done. cbv beta.
      rewrite (bind_pure _ _ s1 () s2) by done. cbv beta.
      by rewrite (with_writer_writeheader s2 (dom d)). }
  rewrite (bind_pure _ _ s3 () s3). cbv beta.
  2:{ unfold grow_columns. rewrite (bind_pure _ _ s3 (Some (dom d)) s3) by done.
      by rewrite keys_dom, bool_decide_eq_true_2. }
  rewrite (record_tail s3 (dom d)) by done.
  rewrite foldl_set_blank_id by (intros k; by rewrite elem_of_elements).
  unfold with_columns. simpl. by rewrite <- app_assoc.
Qed.

Lemma record_subset self fs t prefix :
  _fieldnames self = Some fs →
  _writer self = Some {| csv.fieldnames := Some fs |} →
  dom (as_primitive_dict t) ⊆ fs →
  let d := as_primitive_dict t in
  record (ObjTabular t) prefix self =
    Result (Returned ())
      (set_log_file (_log_file self ++ [csv._dict_to_list fs d]) self)
      (Mark <$> keys (foldl set_blank d (elements fs))).
Proof.
  intros Hfs Hw Hsub d. unfold record. fold d.
  rewrite (bind_pure _ _ self (_writer self) self) by done. cbv beta.
  rewrite Hw. rewrite (bool_decide_eq_false_2 (Some _ = None)) by done.
  rewrite andb_false_r.
  rewrite (bind_pure _ _ self () self) by done. cbv beta.
  rewrite (bind_pure _ _ self () self). cbv beta.
  2:{ unfold grow_columns. rewrite (bind_pure _ _ self (Some fs) self).
      - by rewrite keys_dom, bool_decide_eq_true_2.
      - unfold gets. by rewrite Hfs. }
  by apply record_tail.
Qed.

Lemma record_new_keys self fs w t prefix :
  _fieldnames self = Some fs →
  _writer self = Some w →
  ¬ dom (as_primitive_dict t) ⊆ fs →
  let d := as_primitive_dict t in
  let fs' := fs ∪ dom d in
  record (ObjTabular t) prefix self =
    Result (Returned ())
      (with_columns fs'
         (elements fs' ::
            (csv._dict_to_list fs' <$> csv.DictReader (read_text (_log_file self))) ++
            [csv._dict_to_list fs' d])
         (truncate_log_file self))
      (Mark <$> keys (foldl set_blank d (elements fs'))).
Proof.
  intros Hfs Hw Hsub d fs'. unfold record. fold d.
  rewrite (bind_pure _ _ self (_writer self) self) by done. cbv beta.
  rewrite Hw. rewrite (bool_decide_eq_false_2 (Some _ = None)) by done.
  rewrite andb_false_r.
  rewrite (bind_pure _ _ self () self) by done. cbv beta.
  set (s1 := with_columns fs'
               (elements fs' ::
                  (csv._dict_to_list fs' <$>
                     csv.DictReader (read_text (_log_file self))))
               (truncate_log_file self)).
  rewrite (bind_pure _ _ self () s1).
  2:{ unfold grow_columns. rewrite (bind_pure _ _ self (Some fs) self).
      - rewrite keys_dom, bool_decide_eq_false_2 by done.
        rewrite (rewriteCSV_run _ _ fs Hfs). by rewrite keys_dom.
      - unfold gets. by rewrite Hfs. }
  by rewrite (record_tail s1 fs').
Qed.

(** ** Sessions *)

Lemma session_returns cs self : res (session cs self) = Returned ().
Proof.
  unfold session. revert self. induction cs as [|c cs IH]; intros self; [done|].
  cbn [for_]. unfold mbind, M_bind, try_ at 1. cbn [res final]. apply IH.
Qed.

Lemma session_snoc cs c self :
  session (cs ++ [c]) self =
    Result (Returned ())
      (final (invoke c (final (session cs self))))
      (events (session cs self) ++ events (invoke c (final (session cs self)))).
Proof.
  unfold session at 1. rewrite for_app. fold (session cs).
  unfold mbind at 1, M_bind at 1. rewrite session_returns.
  cbn [for_]. unfold mbind, M_bind, try_, mret, M_ret. cbn [res final events].
  by rewrite app_nil_r.
Qed.

Lemma final_session_snoc cs c self :
  final (session (cs ++ [c]) self) = final (invoke c (final (session cs self))).
Proof. by rewrite session_snoc. Qed.

(** The rows presented and written, one call later. *)
Lemma presented_snoc cs c :
  presented (cs ++ [c]) =
    presented cs ++ match row_of c with Some d => [d] | None => [] end.
Proof. unfold presented. rewrite omap_app. simpl. by destruct (row_of c). Qed.

Lemma from_first_keyed_snoc rows (d : pydict) :
  from_first_keyed (rows ++ [d]) =
    match from_first_keyed rows with
    | [] => if decide (d = ∅) then [] else [d]
    | w => w ++ [d]
    end.
Proof.
  induction rows as [|r rows IH]; simpl.
  - by destruct (decide (d = ∅)).
  - destruct (decide (r = ∅)); [done|]. done.
Qed.

Lemma from_first_keyed_dom rows (d : pydict) :
  d ∈ from_first_keyed rows → dom d ⊆ ⋃ (dom <$> rows).
Proof.
  induction rows as [|r rows IH]; simpl; [by intros ?%elem_of_nil|].
  destruct (decide (r = ∅)).
  - intros H%IH. set_solver.
  - intros [->|H]%elem_of_cons; [set_solver|].
    assert (dom d ⊆ ⋃ (dom <$> rows)); [|set_solver].
    intros k Hk. apply elem_of_union_list. exists (dom d). split; [|done].
    apply list_elem_of_fmap. by exists d.
Qed.

Lemma from_first_keyed_nil rows :
  from_first_keyed rows = [] → ⋃ (dom <$> rows) = (∅ : gset string).
Proof.
  induction rows as [|r rows IH]; simpl; [done|].
  destruct (decide (r = ∅)) as [->|]; [|done].
  intros H%IH. rewrite dom_empty_L. set_solver.
Qed.

Lemma from_first_keyed_seen rows :
  from_first_keyed rows ≠ [] → ⋃ (dom <$> rows) ≠ (∅ : gset string).
Proof.
  induction rows as [|r rows IH]; simpl; [done|].
  destruct (decide (r = ∅)) as [->|Hr].
  - intros H%IH. rewrite dom_empty_L. by rewrite union_empty_l_L.
  - intros _ Hempty. apply Hr. apply dom_empty_iff_L. set_solver.
Qed.

Lemma seen_snoc rows (d : pydict) :
  ⋃ (dom <$> (rows ++ [d])) = ⋃ (dom <$> rows) ∪ dom d.
Proof. rewrite fmap_app, union_list_app_L. simpl. set_solver. Qed.

(** ** Reading the file back *)

Lemma universal_newlines_cons c (s : string) :
  universal_newlines (universal_newlines s) = universal_newlines s ∧
  universal_newlines (universal_newlines (String c s)) =
    universal_newlines (String c s).
Proof.
  revert c. induction s as [|c' s IH]; intros c.
  - split; [done|]. cbn [universal_newlines].
    destruct (Ascii.eqb c CR) eqn:Hc; cbn [universal_newlines].
    + done.
    + by rewrite Hc.
  - destruct (IH c') as [IH1 IH2]. split; [done|].
    cbn [universal_newlines]. destruct (Ascii.eqb c CR) eqn:Hc.
    + destruct (Ascii.eqb c' LF) eqn:Hc'.
      * change (universal_newlines (String LF ?x))
          with (String LF (universal_newlines x)). by rewrite IH1.
      * change (universal_newlines (String LF ?x))
          with (String LF (universal_newlines x)).
        f_equal. exact IH2.
    + change (universal_newlines (String c ?x))
        with (if Ascii.eqb c CR
              then String LF
                     match x with
                     | EmptyString => EmptyString
                     | String c' s'' =>
                         if Ascii.eqb c' LF then universal_newlines s''
                         else universal_newlines x
                     end
              else String c (universal_newlines x)) at 1.
      rewrite Hc. f_equal. exact IH2.
Qed.

Lemma universal_newlines_idemp (s : string) :
  universal_newlines (universal_newlines s) = universal_newlines s.
Proof. destruct s; [done|]. apply universal_newlines_cons. Qed.

Lemma plain_universal_newlines (s : string) : plain (universal_newlines s).
Proof. apply universal_newlines_idemp. Qed.

Lemma plain_empty : plain "".
Proof. done. Qed.

Lemma fmap_plain (l : list string) :
  Forall plain l → universal_newlines <$> l = l.
Proof.
  intros H. rewrite <- (list_fmap_id l) at 2. apply list_fmap_ext.
  intros i k Hk. simpl. eapply (proj1 (Forall_forall _ _) H).
  by eapply list_elem_of_lookup_2.
Qed.

Lemma elements_plain (fs : gset string) :
  set_Forall plain fs → universal_newlines <$> elements fs = elements fs.
Proof.
  intros H. apply fmap_plain, Forall_forall. intros k Hk.
  apply H. by apply elem_of_elements.
Qed.

(** What the reader gets of a file whose records all lie along the header. *)
Lemma DictReader_read_text (fs : gset string) (recs : list (list string)) :
  fs ≠ ∅ →
  Forall (λ rec, length rec = length (elements fs)) recs →
  csv.DictReader (read_text (elements fs :: recs)) =
    (λ rec, csv.reader_row (universal_newlines <$> elements fs)
              (universal_newlines <$> rec)) <$> recs.
Proof.
  intros Hne Hlen. unfold read_text. rewrite fmap_cons. unfold csv.DictReader.
  rewrite filter_all.
  - by rewrite <- list_fmap_compose.
  - apply Forall_forall. intros row [rec [-> Hrec]]%list_elem_of_fmap Hnil.
    apply fmap_nil_inv in Hnil. subst rec.
    apply (proj1 (Forall_forall _ _) Hlen) in Hrec. simpl in Hrec.
    symmetry in Hrec. apply length_zero_iff_nil in Hrec.
    apply elements_empty_inv in Hrec. apply Hne. by apply leibniz_equiv.
Qed.

Lemma stored_length fs rec d : stored fs rec d → length rec = length (elements fs).
Proof. intros (_ & c & -> & _). by rewrite length_fmap. Qed.

(** A row as [DictWriter.writerow] lays it out is stored. *)
Lemma stored_written fs (d : pydict) :
  dom d ⊆ fs → stored fs (csv._dict_to_list fs d) d.
Proof.
  intros Hd. split; [done|]. exists (shown d). split; [apply dict_to_list_shown|].
  intros _ key _. by left.
Qed.

(** A stored row, read back and laid out along a wider header, is stored. *)
Lemma stored_read_back fs fs' rec (d : pydict) :
  fs ⊆ fs' →
  stored fs rec d →
  stored fs'
    (csv._dict_to_list fs'
       (csv.reader_row (universal_newlines <$> elements fs)
          (universal_newlines <$> rec)))
    d.
Proof.
  intros Hsub (Hd & c & -> & Hc). split; [set_solver|].
  eexists. split; [apply dict_to_list_shown|].
  intros Hplain key Hkey.
  assert (set_Forall plain fs) as Hplain_fs by (intros k Hk; apply Hplain; set_solver).
  rewrite elements_plain by done. rewrite <- list_fmap_compose.
  assert (shown (csv.reader_row (elements fs)
                   (universal_newlines ∘ c <$> elements fs)) key =
          if decide (key ∈ fs) then universal_newlines (c key) else "") as ->.
  { unfold shown. rewrite reader_row_lookup.
    destruct (decide (key ∈ elements fs)) as [Hk|Hk]; rewrite elem_of_elements in Hk.
    - by rewrite decide_True.
    - by rewrite decide_False. }
  destruct (decide (key ∈ fs)) as [Hk|Hk].
  - right. destruct (Hc Hplain_fs key Hk) as [->| ->]; [done|].
    apply universal_newlines_idemp.
  - left. symmetry. apply shown_not_in_dom. set_solver.
Qed.

Lemma record_holds_rows self rows t prefix :
  holds_rows self rows →
  holds_rows (final (record (ObjTabular t) prefix self))
    (rows ++ [as_primitive_dict t]).
Proof.
  unfold holds_rows. rewrite from_first_keyed_snoc, seen_snoc.
  set (d := as_primitive_dict t). set (fs := ⋃ (dom <$> rows)).
  destruct (from_first_keyed rows) as [|r w] eqn:Hw.
  - intros (Hf & Hwr & Hfs). apply from_first_keyed_nil in Hw. fold fs in Hw.
    destruct (decide (d = ∅)) as [Hd|Hd].
    + by rewrite record_no_keys.
    + rewrite record_first by done. fold d. cbn [final with_columns _log_file
        _writer _fieldnames]. rewrite Hf, Hw.
      replace (∅ ∪ dom d) with (dom d) by set_solver.
      split; [|done]. eexists. split; [done|].
      constructor; [|constructor]. by apply stored_written.
  - intros ((recs & Hf & Hrecs) & Hwr & Hfs).
    assert (fs ≠ ∅) as Hne by (apply from_first_keyed_seen; by rewrite Hw).
    change (r :: w ++ [d]) with ((r :: w) ++ [d]).
    destruct (decide (dom d ⊆ fs)) as [Hsub|Hsub].
    + rewrite (record_subset _ fs) by done. fold d.
      replace (fs ∪ dom d) with fs by set_solver.
      cbn [final set_log_file _log_file _writer _fieldnames].
      rewrite Hf. split; [|done].
      exists (recs ++ [csv._dict_to_list fs d]). split; [done|].
      change (r :: w ++ [d]) with ((r :: w) ++ [d]).
      apply Forall2_app; [done|]. constructor; [|constructor].
      by apply stored_written.
    + rewrite (record_new_keys _ fs _ _ _ Hfs Hwr) by done. fold d.
      cbn [final with_columns _log_file _writer _fieldnames].
      split; [|done]. rewrite Hf, DictReader_read_text; [|done|].
      2:{ eapply Forall2_Forall_l; [exact Hrecs|].
          apply Forall_forall. intros d' _ rec. apply stored_length. }
      eexists. split; [done|].
      change (r :: w ++ [d]) with ((r :: w) ++ [d]).
      apply Forall2_app.
      * rewrite <- list_fmap_compose. apply Forall2_fmap_l.
        eapply Forall2_impl; [exact Hrecs|].
        intros rec d' Hst. apply stored_read_back; [set_solver|done].
      * constructor; [|constructor]. apply stored_written. set_solver.
Qed.

Lemma _warn_run flt msg self :
  _warn flt msg self =
    if negb (_disable_warnings self) && bool_decide (msg ∉ _warned_once self)
    then
      match flt with
      | FilterPass =>
          Result (Returned msg)
            (set_warned_once ({[msg]} ∪ _warned_once self) self) [Warn msg]
      | FilterError => Result (Raised (CsvOutputWarning msg)) self [Warn msg]
      end
    else
      Result (Returned msg) (set_warned_once ({[msg]} ∪ _warned_once self) self) [].
Proof.
  unfold _warn, mbind, M_bind, gets. cbn [res final events].
  destruct (negb (_disable_warnings self) && bool_decide (msg ∉ _warned_once self));
    [|done].
  by destruct flt.
Qed.

Lemma invoke_warn_run msg flt self :
  invoke (CallWarn msg flt) self =
    if negb (_disable_warnings self) && bool_decide (msg ∉ _warned_once self)
    then
      match flt with
      | FilterPass =>
          Result (Returned ())
            (set_warned_once ({[msg]} ∪ _warned_once self) self) [Warn msg]
      | FilterError => Result (Raised (CsvOutputWarning msg)) self [Warn msg]
      end
    else
      Result (Returned ()) (set_warned_once ({[msg]} ∪ _warned_once self) self) [].
Proof.
  cbn [invoke]. unfold mbind at 1, M_bind at 1. rewrite _warn_run.
  destruct (negb (_disable_warnings self) && bool_decide (msg ∉ _warned_once self));
    [|done].
  by destruct flt.
Qed.

(** [_warn] leaves the file, the writer and the ColumnSet alone. *)
Lemma invoke_warn_fields msg flt self :
  let self' := final (invoke (CallWarn msg flt) self) in
  _log_file self' = _log_file self ∧ _writer self' = _writer self ∧
  _fieldnames self' = _fieldnames self ∧ truncated self' = truncated self.
Proof.
  cbv zeta. rewrite invoke_warn_run.
  destruct (negb (_disable_warnings self) && bool_decide (msg ∉ _warned_once self));
    [|done].
  by destruct flt.
Qed.

Lemma holds_rows_fields self self' rows :
  _log_file self' = _log_file self →
  _writer self' = _writer self →
  _fieldnames self' = _fieldnames self →
  holds_rows self rows → holds_rows self' rows.
Proof.
  unfold holds_rows. intros -> -> ->. done.
Qed.

Lemma invoke_holds_rows c self rows :
  holds_rows self rows →
  holds_rows (final (invoke c self))
    (rows ++ match row_of c with Some d => [d] | None => [] end).
Proof.
  intros H. destruct c as [[t| |] prefix|msg flt|]; cbn [row_of].
  - by apply (record_holds_rows self rows t prefix).
  - by rewrite app_nil_r.
  - by rewrite app_nil_r.
  - rewrite app_nil_r.
    destruct (invoke_warn_fields msg flt self) as (? & ? & ? & _).
    by apply (holds_rows_fields self).
  - rewrite app_nil_r. by apply (holds_rows_fields self).
Qed.

Lemma session_holds_rows cs file_name :
  holds_rows (final (session cs (__init__ file_name))) (presented cs).
Proof.
  induction cs as [|c cs IH] using rev_ind.
  - done.
  - rewrite final_session_snoc, presented_snoc. by apply invoke_holds_rows.
Qed.

(** What a session leaves in the writer, in terms of the rows written. *)
Lemma session_file cs file_name :
  let self := final (session cs (__init__ file_name)) in
  match written cs with
  | [] => _log_file self = [] ∧ ColumnSet self = ∅ ∧ keys_seen cs = ∅
  | w =>
      (∃ recs, _log_file self = elements (keys_seen cs) :: recs ∧
               Forall2 (stored (keys_seen cs)) recs w) ∧
      ColumnSet self = keys_seen cs ∧
      keys_seen cs ≠ ∅
  end.
Proof.
  intros self. pose proof (session_holds_rows cs file_name) as H.
  fold self in H. unfold holds_rows in H. unfold written, keys_seen, ColumnSet.
  destruct (from_first_keyed (presented cs)) as [|r w] eqn:Hw.
  - destruct H as (-> & _ & ->). split_and!; [done..|].
    by apply from_first_keyed_nil.
  - destruct H as (Hrecs & _ & ->). split_and!; [done..|].
    apply from_first_keyed_seen. by rewrite Hw.
Qed.

(** ** Cells by column *)

Lemma cell_fmap (hd : list string) (g : string → string) key :
  key ∈ hd → cell hd (g <$> hd) key = Some (g key).
Proof.
  induction hd as [|h hd IH]; [by intros ?%elem_of_nil|].
  intros Hin. cbn [fmap list_fmap cell].
  destruct (decide (h = key)) as [->|Hne]; [done|].
  apply IH. set_solver.
Qed.

Lemma cell_written fs (d : pydict) key :
  key ∈ fs → cell (elements fs) (csv._dict_to_list fs d) key = Some (shown d key).
Proof.
  intros Hin. rewrite dict_to_list_shown. apply cell_fmap.
  by apply elem_of_elements.
Qed.

(** * The properties of the writer *)

(** C1, header superset invariant.  After any sequence of calls on a fresh
    writer (each prefix of a longer sequence is such a sequence), the header
    line of the file, taken as a set, is the union of the keys of all rows
    presented to [record] so far, and so is the writer's ColumnSet; the
    header lists no column twice.  An empty file has no header line and
    counts as having no columns. *)
Theorem header_is_union_of_keys cs file_name :
  let self := final (session cs (__init__ file_name)) in
  header_columns (_log_file self) = keys_seen cs ∧
  ColumnSet self = keys_seen cs ∧
  NoDup (header (_log_file self)).
Proof.
  intros self. pose proof (session_file cs file_name) as H. fold self in H.
  unfold header_columns, header.
  destruct (written cs) as [|r w].
  - destruct H as (-> & -> & ->). split_and!; [done..|]. constructor.
  - destruct H as ((recs & -> & _) & -> & _). cbn [head default].
    split_and!; [|done|].
    + apply list_to_set_elements_L.
    + apply NoDup_elements.
Qed.

(** C3, row completeness invariant.  After any sequence of calls on a fresh
    writer, every data row of the file has as many cells as the header has
    columns, and a cell under every column of the header. *)
Theorem rows_are_complete cs file_name :
  let f := _log_file (final (session cs (__init__ file_name))) in
  Forall (λ row,
            length row = length (header f) ∧
            Forall (λ key, is_Some (cell (header f) row key)) (header f))
         (data_rows f).
Proof.
  intros f. subst f. pose proof (session_file cs file_name) as H.
  cbv zeta in H. destruct (written cs) as [|r w].
  - destruct H as (-> & _). constructor.
  - destruct H as ((recs & -> & Hrecs) & _). unfold data_rows, header.
    cbn [tail head default]. unfold id.
    eapply Forall2_Forall_l; [exact Hrecs|].
    apply Forall_forall. intros d _ row (_ & c & -> & _). split.
    + by rewrite length_fmap.
    + apply Forall_forall. intros key Hkey. rewrite cell_fmap by done. eauto.
Qed.

(** C2, no data loss on rewrite: the code loses data where a carriage
    return is involved.  [rewriteCSV] reads the rows back through the
    text-mode handle of the log file, where a carriage return comes out as a
    line feed.  Here a row with the value [a CR b] under [x] and the value
    [1] under the key [k CR] is written; they are in the file.  The next row
    brings the new column [y] and triggers the rewrite; after it the cell
    under [x] reads [a LF b], and the cell under [k CR] is empty: the value
    came back under [k LF], which is no column. *)
Theorem rewrite_loses_carriage_return :
  let text := "a" +:+ String CR "b" in
  let key := "k" +:+ String CR "" in
  let R : pydict := <[ "x" := VStr text ]> {[ key := VInt 1 ]} in
  let cs := [CallRecord (ObjTabular {| as_primitive_dict := R |}) ""] in
  let self := final (session cs (__init__ "progress.csv")) in
  let r :=
    record (ObjTabular {| as_primitive_dict := {[ "y" := VInt 2 ]} |}) "" self in
  let f := _log_file (final r) in
  res r = Returned () ∧
  (∃ row, data_rows (_log_file self) !! 0%nat = Some row ∧
          cell (header (_log_file self)) row "x" = Some text ∧
          cell (header (_log_file self)) row key = Some "1") ∧
  (∃ row, data_rows f !! 0%nat = Some row ∧
          cell (header f) row "x" = Some ("a" +:+ String LF "b") ∧
          cell (header f) row key = Some "").
Proof.
  intros text key R cs self r f. split_and!.
  - reflexivity.
  - eexists. split_and!; reflexivity.
  - eexists. split_and!; reflexivity.
Qed.

(** Every state a session reaches has its writer over [self._fieldnames]. *)
Lemma session_shares_fieldnames cs file_name :
  shares_fieldnames (final (session cs (__init__ file_name))).
Proof.
  pose proof (session_holds_rows cs file_name) as H.
  unfold holds_rows in H. unfold shares_fieldnames.
  destruct (from_first_keyed (presented cs)).
  - by destruct H as (_ & -> & ->).
  - destruct H as (_ & -> & ->). simpl. eauto.
Qed.

Lemma shares_fieldnames_writer self w :
  shares_fieldnames self → _writer self = Some w →
  _fieldnames self = Some (ColumnSet self) ∧
  _writer self = Some {| csv.fieldnames := Some (ColumnSet self) |}.
Proof.
  unfold shares_fieldnames, ColumnSet. intros H Hw. rewrite Hw in H |- *.
  destruct H as [Hfs [fs Hsome]]. rewrite Hsome in Hfs |- *.
  destruct w as [wfs]. simpl in *. by subst.
Qed.

(** On a writer whose [DictWriter] runs over [self._fieldnames], a row
    whose keys all are columns is appended, and nothing else happens. *)
Lemma record_subset_appends self t prefix :
  let d := as_primitive_dict t in
  let r := record (ObjTabular t) prefix self in
  shares_fieldnames self →
  dom d ⊆ ColumnSet self →
  res r = Returned () ∧
  final r =
    set_log_file
      (_log_file self ++
         match _writer self with
         | Some _ => [shown d <$> elements (ColumnSet self)]
         | None => []
         end)
      self ∧
  _log_file self `prefix_of` _log_file (final r) ∧
  ColumnSet (final r) = ColumnSet self.
Proof.
  intros d r Hshare Hsub. subst r.
  destruct (_writer self) as [w|] eqn:Hw.
  - destruct (shares_fieldnames_writer _ _ Hshare Hw) as [Hfs Hw'].
    rewrite (record_subset self (ColumnSet self) t prefix Hfs Hw' Hsub).
    fold d. rewrite dict_to_list_shown. cbn [res final]. split_and!; try done.
    by apply prefix_app_r.
  - unfold shares_fieldnames in Hshare. rewrite Hw in Hshare.
    unfold ColumnSet in Hsub. rewrite Hshare in Hsub. cbn [default] in Hsub.
    assert (d = ∅) as Hd by (apply dom_empty_iff_L; set_solver).
    rewrite record_no_keys by done. cbn [res final].
    rewrite app_nil_r, set_log_file_same by done. done.
Qed.

(** C4, the fast path never rewrites.  At any point of the life of a
    writer, a row whose keys all are in the ColumnSet makes [record] return
    without a rewrite: the file handle is not truncated (the count of its
    truncations is what it was), and the writer is as it was except for the
    file, which is as it was with one record appended: under each column of
    the ColumnSet the text of the row's value, or the empty string where the
    row has no such key.  The old file is a prefix of the new one: nothing
    written before is touched.  (Before the first header the ColumnSet is
    empty, the row then has no key, and nothing is appended.) *)
Theorem subset_row_is_appended cs file_name t prefix :
  let self := final (session cs (__init__ file_name)) in
  let d := as_primitive_dict t in
  let r := record (ObjTabular t) prefix self in
  dom d ⊆ ColumnSet self →
  res r = Returned () ∧
  truncated (final r) = truncated self ∧
  final r =
    set_log_file
      (_log_file self ++
         match _writer self with
         | Some _ => [shown d <$> elements (ColumnSet self)]
         | None => []
         end)
      self ∧
  _log_file self `prefix_of` _log_file (final r) ∧
  ColumnSet (final r) = ColumnSet self.
Proof.
  intros self d r Hsub.
  destruct (record_subset_appends self t prefix
              (session_shares_fieldnames cs file_name) Hsub)
    as (H1 & H2 & H3 & H4).
  fold d r in H1, H2, H3, H4. split_and!; try done. by rewrite H2.
Qed.

Lemma subset_row_is_appended_witness :
  let row (x y : Z) : TabularInput :=
    {| as_primitive_dict := <[ "x" := VInt x ]> {[ "y" := VInt y ]} |} in
  let cs := [CallRecord (ObjTabular (row 2%Z 5%Z)) ""] in
  let self := final (session cs (__init__ "progress.csv")) in
  let r := record (ObjTabular (row 3%Z 6%Z)) "" self in
  dom (as_primitive_dict (row 3%Z 6%Z)) ⊆ ColumnSet self ∧
  _log_file self `prefix_of` _log_file (final r).
Proof.
  intros row cs self r.
  assert (dom (as_primitive_dict (row 3%Z 6%Z)) ⊆ ColumnSet self) as H
    by decide_by_compute.
  split; [exact H|].
  exact (proj1 (proj2 (proj2 (proj2
           (subset_row_is_appended cs "progress.csv" (row 3%Z 6%Z) "" H))))).
Defined.

(** C5, type rejection.  Handed anything that is not a [TabularInput],
    [record] raises [ValueError('Unacceptable type.')]; every field of the
    writer, the file among them, is as before the call, and no call was made
    on any other object. *)
Theorem record_rejects_other_types self data prefix :
  isinstance_TabularInput data = false →
  record data prefix self =
    Result (Raised (ValueError "Unacceptable type.")) self [].
Proof. by destruct data. Qed.

Lemma record_rejects_other_types_witness :
  isinstance_TabularInput (ObjStr "loss=0.5") = false ∧
  record (ObjStr "loss=0.5") "" (__init__ "progress.csv") =
    Result (Raised (ValueError "Unacceptable type.")) (__init__ "progress.csv") [].
Proof.
  split; [reflexivity|].
  apply (record_rejects_other_types (__init__ "progress.csv") (ObjStr "loss=0.5") "").
  reflexivity.
Defined.

(** C7, empty row before the header.  While the writer has no [DictWriter]
    yet, [record] with a row without keys returns at once: the writer is
    left as it was in every field, so the file stays as it is (empty, on a
    fresh writer) and no header or ColumnSet is set up; no key is marked. *)
Theorem empty_row_before_header self t prefix :
  _writer self = None →
  keys (as_primitive_dict t) = [] →
  record (ObjTabular t) prefix self = Result (Returned ()) self [].
Proof.
  intros Hw Hk. apply record_no_keys; [done|]. by apply keys_nil.
Qed.

Lemma empty_row_before_header_witness :
  let self := __init__ "progress.csv" in
  let r := record (ObjTabular {| as_primitive_dict := ∅ |}) "" self in
  _writer self = None ∧
  keys (∅ : pydict) = [] ∧
  _log_file (final r) = [] ∧ _writer (final r) = None ∧
  _fieldnames (final r) = None.
Proof.
  intros self r.
  assert (_writer self = None) as H1 by reflexivity.
  assert (keys (as_primitive_dict {| as_primitive_dict := ∅ |}) = []) as H2
    by reflexivity.
  split; [exact H1|]. split; [exact H2|]. subst r.
  rewrite (empty_row_before_header self {| as_primitive_dict := ∅ |} "" H1 H2).
  by split_and!.
Defined.

(** C10, the prefix is ignored.  Whatever is recorded and whatever the
    state of the writer, two prefixes give the same computation: the same
    outcome, the same writer and file afterwards, the same marks. *)
Theorem prefix_is_ignored data self p1 p2 :
  record data p1 self = record data p2 self.
Proof. by destruct data. Qed.

Lemma NoDup_keys (d : pydict) : NoDup (keys d).
Proof. apply NoDup_fst_map_to_list. Qed.

Lemma elem_of_keys_padded (d : pydict) (fs : gset string) k :
  k ∈ keys (foldl set_blank d (elements fs)) ↔ k ∈ dom d ∨ k ∈ fs.
Proof.
  rewrite elem_of_keys, dom_foldl_set_blank, elem_of_union.
  by rewrite elem_of_list_to_set, elem_of_elements.
Qed.

Lemma dict_to_list_empty (fs : gset string) :
  csv._dict_to_list fs ∅ = (λ _, "") <$> elements fs.
Proof.
  rewrite dict_to_list_shown. apply list_fmap_ext.
  intros _ k _. unfold shown. by rewrite lookup_empty.
Qed.

(** A row without keys, on a writer that has its [DictWriter] over the
    columns [fs]. *)
Lemma record_empty_row self fs t prefix :
  let r := record (ObjTabular t) prefix self in
  _fieldnames self = Some fs →
  _writer self = Some {| csv.fieldnames := Some fs |} →
  as_primitive_dict t = ∅ →
  res r = Returned () ∧
  final r =
    set_log_file (_log_file self ++ [(λ _, "") <$> elements fs]) self ∧
  ∃ ks, events r = Mark <$> ks ∧ ks ≡ₚ elements fs.
Proof.
  intros r Hfs Hw Hd. subst r.
  rewrite (record_subset self fs t prefix Hfs Hw) by (rewrite Hd; set_solver).
  rewrite Hd. cbn [res final events]. split_and!; [done| |].
  - by rewrite dict_to_list_empty.
  - eexists. split; [done|]. apply NoDup_Permutation.
    + apply NoDup_keys.
    + apply NoDup_elements.
    + intros k. rewrite elem_of_keys_padded, elem_of_elements. set_solver.
Qed.

(** C9, empty row after the header.  Once a writer has written its header,
    [record] with a row without keys is no no-op: it returns after appending
    one record that holds the empty string under every column of the header,
    which lists the ColumnSet, and it marks each column of the ColumnSet
    once on the record object.  Nothing else of the writer changes. *)
Theorem empty_row_after_header cs file_name t prefix :
  let self := final (session cs (__init__ file_name)) in
  let r := record (ObjTabular t) prefix self in
  _writer self ≠ None →
  as_primitive_dict t = ∅ →
  res r = Returned () ∧
  header (_log_file self) = elements (ColumnSet self) ∧
  final r =
    set_log_file (_log_file self ++ [(λ _, "") <$> header (_log_file self)]) self ∧
  ∃ ks, events r = Mark <$> ks ∧ ks ≡ₚ elements (ColumnSet self).
Proof.
  intros self r Hw Hd.
  destruct (_writer self) as [w|] eqn:Hw'; [clear Hw|done].
  destruct (shares_fieldnames_writer self w) as [Hfs Hwr];
    [apply session_shares_fieldnames|done|].
  assert (header (_log_file self) = elements (ColumnSet self)) as Hhd.
  { pose proof (session_holds_rows cs file_name) as H. fold self in H.
    unfold holds_rows in H.
    destruct (from_first_keyed (presented cs)).
    - destruct H as (_ & H & _). congruence.
    - destruct H as ((recs & -> & _) & _ & Hfs'). unfold ColumnSet.
      by rewrite Hfs'. }
  rewrite Hhd.
  destruct (record_empty_row self (ColumnSet self) t prefix Hfs Hwr Hd)
    as (H1 & H2 & H3).
  by split_and!.
Qed.

Lemma empty_row_after_header_witness :
  let cs := [CallRecord (ObjTabular {| as_primitive_dict := {[ "x" := VInt 1 ]} |}) ""] in
  let self := final (session cs (__init__ "progress.csv")) in
  let r := record (ObjTabular {| as_primitive_dict := ∅ |}) "" self in
  _writer self ≠ None ∧
  final r =
    set_log_file (_log_file self ++ [(λ _, "") <$> header (_log_file self)]) self.
Proof.
  intros cs self r.
  assert (_writer self ≠ None) as H by decide_by_compute.
  split; [exact H|].
  exact (proj1 (proj2 (proj2
           (empty_row_after_header cs "progress.csv"
              {| as_primitive_dict := ∅ |} "" H eq_refl)))).
Defined.

(** A row of blanks is appended indeed. *)
Example empty_row_after_header_file :
  let cs := [CallRecord (ObjTabular {| as_primitive_dict := {[ "x" := VInt 1 ]} |}) ""] in
  let r := record (ObjTabular {| as_primitive_dict := ∅ |}) ""
             (final (session cs (__init__ "progress.csv"))) in
  _log_file (final r) = [["x"]; ["1"]; [""]] ∧ events r = [Mark "x"].
Proof. split; reflexivity. Qed.

(** C6 does not hold as worded: after the header [x, y], the row [{x: 3}]
    is padded with a blank [y], and [y], which is no key of the row, is
    marked too. *)
Lemma marks_exactly_row_keys_counterexample :
  let xy : pydict := <[ "x" := VInt 1 ]> {[ "y" := VInt 2 ]} in
  let self :=
    final (session [CallRecord (ObjTabular {| as_primitive_dict := xy |}) ""]
             (__init__ "progress.csv")) in
  ¬ marks_exactly_row_keys self {| as_primitive_dict := {[ "x" := VInt 3 ]} |} "".
Proof.
  intros xy self H. specialize (H "y").
  assert ("y" ∈ dom ({[ "x" := VInt 3 ]} : pydict)) as Hy.
  { apply H. decide_by_compute. }
  revert Hy. decide_by_compute.
Qed.

(** The keys [record] marks, on a writer whose [DictWriter] runs over
    [self._fieldnames]. *)
Lemma record_marks_columns self t prefix :
  let d := as_primitive_dict t in
  let r := record (ObjTabular t) prefix self in
  shares_fieldnames self →
  res r = Returned () ∧
  dom d ⊆ ColumnSet (final r) ∧
  ∃ ks, events r = Mark <$> ks ∧ NoDup ks ∧
        ∀ k, k ∈ ks ↔ k ∈ dom d ∨ (k ∈ ColumnSet (final r) ∧ k ∉ dom d).
Proof.
  intros d r Hshare. subst r.
  destruct (_writer self) as [w|] eqn:Hw.
  - destruct (shares_fieldnames_writer _ _ Hshare Hw) as [Hfs Hw'].
    set (fs := ColumnSet self) in *.
    destruct (decide (dom d ⊆ fs)) as [Hsub|Hsub].
    + rewrite (record_subset self fs t prefix Hfs Hw' Hsub). fold d.
      cbn [res final events]. unfold ColumnSet at 1 2. cbn [_fieldnames set_log_file].
      rewrite Hfs. cbn [default]. split_and!; [done..|].
      eexists. split_and!; [done|apply NoDup_keys|].
      intros k. rewrite elem_of_keys_padded.
      destruct (decide (k ∈ dom d)); naive_solver.
    + rewrite (record_new_keys self fs _ t prefix Hfs Hw' Hsub). fold d.
      cbn [res final events]. unfold ColumnSet at 1 2. cbn [_fieldnames with_columns].
      cbn [default]. split_and!; [done|set_solver|].
      eexists. split_and!; [done|apply NoDup_keys|].
      intros k. rewrite elem_of_keys_padded.
      destruct (decide (k ∈ dom d)); naive_solver.
  - destruct (decide (d = ∅)) as [Hd|Hd].
    + rewrite record_no_keys by done. cbn [res final events]. fold d.
      rewrite Hd, dom_empty_L. split_and!; [done|set_solver|].
      exists []. split; [done|]. split; [constructor|].
      unfold shares_fieldnames in Hshare. rewrite Hw in Hshare.
      unfold ColumnSet. rewrite Hshare. set_solver.
    + rewrite record_first by done. fold d. cbn [res final events].
      unfold ColumnSet. cbn [_fieldnames with_columns default].
      split_and!; [done..|].
      eexists. split_and!; [done|apply NoDup_keys|].
      intros k. rewrite elem_of_keys. naive_solver.
Qed.

(** C6, amended.  At any point of the life of a writer, [record] with a
    tabular row returns, and the keys it marks on the record object, each
    once, are the keys of the row together with the columns of the ColumnSet
    that the row lacked and the writer filled with the empty string.  Every
    key of the row is a column after the call, so the keys marked are the
    columns of the ColumnSet after the call. *)
Theorem marks_are_columns cs file_name t prefix :
  let self := final (session cs (__init__ file_name)) in
  let d := as_primitive_dict t in
  let r := record (ObjTabular t) prefix self in
  res r = Returned () ∧
  dom d ⊆ ColumnSet (final r) ∧
  ∃ ks, events r = Mark <$> ks ∧ NoDup ks ∧
        (∀ k, k ∈ ks ↔ k ∈ dom d ∨ (k ∈ ColumnSet (final r) ∧ k ∉ dom d)) ∧
        list_to_set ks = ColumnSet (final r).
Proof.
  intros self d r.
  destruct (record_marks_columns self t prefix (session_shares_fieldnames _ _))
    as (Hres & Hsub & ks & Hev & Hnd & Hks).
  fold d r in Hres, Hsub, Hev, Hks.
  split_and!; [done..|]. exists ks. split_and!; [done..|].
  apply set_eq. intros k. rewrite elem_of_list_to_set, Hks.
  destruct (decide (k ∈ dom d)); set_solver.
Qed.

(** ** Warnings *)

Lemma warnings_app evs1 evs2 :
  warnings (evs1 ++ evs2) = warnings evs1 ++ warnings evs2.
Proof. apply omap_app. Qed.

Section quiet.
Context {A B : Type}.

Lemma quiet_ret (a : A) : quiet (mret a).
Proof. by intros self. Qed.

Lemma quiet_raise e : quiet (raise e : M CsvOutput A).
Proof. by intros self. Qed.

Lemma quiet_gets (f : CsvOutput → A) : quiet (gets f).
Proof. by intros self. Qed.

Lemma quiet_modify (f : CsvOutput → CsvOutput) :
  (∀ self, _warned_once (f self) = _warned_once self ∧
           _disable_warnings (f self) = _disable_warnings self) →
  quiet (modify f).
Proof. intros H self. destruct (H self). by split_and!. Qed.

Lemma quiet_mark k : quiet (emit (Mark k)).
Proof. by intros self. Qed.

Lemma quiet_bind (m : M CsvOutput A) (k : A → M CsvOutput B) :
  quiet m → (∀ a, quiet (k a)) → quiet (m ≫= k).
Proof.
  intros Hm Hk self. destruct (Hm self) as (H1 & H2 & H3).
  unfold mbind, M_bind. destruct (res (m self)) as [a|e]; [|done].
  destruct (Hk a (final (m self))) as (H1' & H2' & H3').
  cbn [final events]. rewrite warnings_app, H3, H3'.
  split_and!; [congruence..|done].
Qed.

Lemma quiet_on_log_file (m : M csv.file A) :
  (∀ f, warnings (events (m f)) = []) → quiet (on_log_file m).
Proof. intros H self. unfold on_log_file. cbn [final events]. by split_and!. Qed.
End quiet.

Lemma quiet_for {A} (l : list A) (body : A → M CsvOutput unit) :
  (∀ x, quiet (body x)) → quiet (for_ l body).
Proof.
  intros H. induction l as [|x l IH]; [by intros self|].
  cbn [for_]. apply quiet_bind; [apply H|by intros _].
Qed.

Lemma writerow_no_warning w row f : warnings (events (csv.writerow w row f)) = [].
Proof. unfold csv.writerow. by destruct (csv.fieldnames w). Qed.

Lemma writeheader_no_warning w f : warnings (events (csv.writeheader w f)) = [].
Proof.
  unfold csv.writeheader. destruct (csv.fieldnames w) eqn:H; [|done].
  apply writerow_no_warning.
Qed.

(** Breaks a computation into its steps, each of them quiet. *)
Ltac quiet_steps :=
  repeat first
    [ apply quiet_ret | apply quiet_raise | apply quiet_gets | apply quiet_mark
    | apply quiet_modify; by intros []
    | apply quiet_on_log_file; intros ?;
        first [apply writerow_no_warning | apply writeheader_no_warning]
    | apply quiet_for; intros ?
    | apply quiet_bind; [|intros ?]
    | match goal with
      | |- quiet (match ?x with _ => _ end) => destruct x
      end ].

Lemma quiet_with_writer_writerow row attr :
  quiet (with_writer (λ w, csv.writerow w row) attr).
Proof. unfold with_writer. quiet_steps. Qed.

Lemma quiet_with_writer_writeheader attr :
  quiet (with_writer csv.writeheader attr).
Proof. unfold with_writer. quiet_steps. Qed.

Lemma quiet_pad_blank d : quiet (pad_blank d).
Proof. unfold pad_blank. quiet_steps. Qed.

Lemma quiet_rewriteCSV l : quiet (rewriteCSV l).
Proof. unfold rewriteCSV. quiet_steps. Qed.

Lemma quiet_record data prefix : quiet (record data prefix).
Proof. unfold record. destruct data as [t| |]; quiet_steps. Qed.

Lemma session_cons c cs self :
  session (c :: cs) self =
    Result (Returned ())
      (final (session cs (final (invoke c self))))
      (events (invoke c self) ++ events (session cs (final (invoke c self)))).
Proof.
  unfold session. cbn [for_]. unfold mbind, M_bind, try_ at 1.
  cbn [res final events]. fold (session cs). by rewrite session_returns.
Qed.

(** What one call does to the warning machinery: a warning it emits is of a
    message not warned of before, at a time warnings are not disabled; what
    is remembered or disabled stays so; and a message emitted by a call that
    the filter lets pass is remembered. *)
Lemma invoke_warnings c self :
  let r := invoke c self in
  NoDup (warnings (events r)) ∧
  (∀ msg, msg ∈ warnings (events r) →
          (msg ∉ _warned_once self) ∧ _disable_warnings self = false ∧
          (warn_passes c → msg ∈ _warned_once (final r))) ∧
  _warned_once self ⊆ _warned_once (final r) ∧
  (_disable_warnings self = true → _disable_warnings (final r) = true).
Proof.
  destruct c as [data prefix|msg flt|]; cbv zeta.
  - destruct (quiet_record data prefix self) as (H1 & H2 & H3).
    cbn [invoke]. rewrite H1, H2, H3.
    split_and!; [constructor|by intros ? ?%elem_of_nil|done..].
  - rewrite invoke_warn_run.
    destruct (_disable_warnings self) eqn:Hdis; cbn [negb andb].
    { cbn. split_and!; [constructor|by intros ? ?%elem_of_nil|set_solver|done]. }
    case_bool_decide as Hmsg.
    + destruct flt; cbn.
      * split_and!; [apply NoDup_singleton| |set_solver|done].
        intros m ->%list_elem_of_singleton. split_and!; [done..|]. set_solver.
      * split_and!; [apply NoDup_singleton| |set_solver|done].
        intros m ->%list_elem_of_singleton. by split_and!.
    + cbn. split_and!; [constructor|by intros ? ?%elem_of_nil|set_solver|done].
  - cbn. split_and!; [constructor|by intros ? ?%elem_of_nil|done..].
Qed.

(** Once warnings are disabled, no call emits one. *)
Lemma session_disabled cs self :
  _disable_warnings self = true → warnings (events (session cs self)) = [].
Proof.
  revert self. induction cs as [|c cs IH]; intros self Hdis; [done|].
  rewrite session_cons. cbn [events]. rewrite warnings_app.
  destruct (invoke_warnings c self) as (_ & Hnew & _ & Hoff).
  rewrite IH by auto. rewrite app_nil_r.
  apply elem_of_nil_inv. intros m Hm.
  destruct (Hnew m Hm) as (_ & Hfalse & _). congruence.
Qed.

(** While the filter lets every warning pass, no message is emitted twice. *)
Lemma session_warnings cs self :
  Forall warn_passes cs →
  NoDup (warnings (events (session cs self))) ∧
  (∀ msg, msg ∈ warnings (events (session cs self)) → msg ∉ _warned_once self).
Proof.
  revert self. induction cs as [|c cs IH]; intros self Hpass.
  - split; [constructor|by intros ? ?%elem_of_nil].
  - apply Forall_cons in Hpass as [Hc Hpass].
    rewrite session_cons. cbn [events]. rewrite warnings_app.
    destruct (invoke_warnings c self) as (Hnd & Hnew & Hmono & _).
    destruct (IH (final (invoke c self)) Hpass) as (IHnd & IHnew).
    split.
    + apply NoDup_app. split_and!; [done| |done].
      intros msg Hin Hin'. apply Hnew in Hin as (_ & _ & Hin).
      apply IHnew in Hin'. auto.
    + intros msg [Hin|Hin]%elem_of_app.
      * by apply Hnew in Hin as (? & _).
      * apply IHnew in Hin. set_solver.
Qed.

Lemma presented_filter_is_record cs :
  presented (filter is_record cs) = presented cs.
Proof.
  unfold presented. induction cs as [|c cs IH]; [done|].
  destruct c as [data prefix|msg flt|].
  - rewrite filter_cons_True by done. cbn [omap list_omap]. by rewrite IH.
  - rewrite filter_cons_False by (by intros []). done.
  - rewrite filter_cons_False by (by intros []). done.
Qed.

(** [record] does not look at the warning machinery. *)
Lemma record_unwarned self data prefix :
  shares_fieldnames self →
  final (record data prefix (unwarned self)) =
    unwarned (final (record data prefix self)).
Proof.
  intros Hshare. destruct data as [t| |]; [|done..].
  set (d := as_primitive_dict t).
  destruct (_writer self) as [w|] eqn:Hw.
  - destruct (shares_fieldnames_writer _ _ Hshare Hw) as [Hfs Hw'].
    set (fs := ColumnSet self) in *.
    destruct (decide (dom d ⊆ fs)) as [Hsub|Hsub].
    + rewrite (record_subset self fs t prefix Hfs Hw' Hsub).
      by rewrite (record_subset (unwarned self) fs t prefix Hfs Hw' Hsub).
    + rewrite (record_new_keys self fs _ t prefix Hfs Hw' Hsub).
      by rewrite (record_new_keys (unwarned self) fs _ t prefix Hfs Hw' Hsub).
  - destruct (decide (d = ∅)) as [Hd|Hd].
    + rewrite (record_no_keys self t prefix Hw Hd).
      by rewrite (record_no_keys (unwarned self) t prefix Hw Hd).
    + rewrite (record_first self t prefix Hw Hd).
      by rewrite (record_first (unwarned self) t prefix Hw Hd).
Qed.

Lemma session_unwarned cs file_name :
  unwarned (final (session (filter is_record cs) (__init__ file_name))) =
  unwarned (final (session cs (__init__ file_name))).
Proof.
  induction cs as [|c cs IH] using rev_ind; [done|].
  rewrite filter_app, final_session_snoc.
  destruct c as [data prefix|msg flt|].
  - rewrite filter_cons_True, filter_nil by done. rewrite final_session_snoc.
    cbn [invoke].
    rewrite <- !record_unwarned by apply session_shares_fieldnames.
    by rewrite IH.
  - rewrite filter_cons_False, filter_nil by (by intros []). rewrite app_nil_r, IH.
    rewrite invoke_warn_run.
    destruct (negb _ && bool_decide _); [|done]. by destruct flt.
  - rewrite filter_cons_False, filter_nil by (by intros []). by rewrite app_nil_r, IH.
Qed.

Lemma session_not_again cs self msg :
  msg ∈ _warned_once self → msg ∉ warnings (events (session cs self)).
Proof.
  revert self. induction cs as [|c cs IH]; intros self Hmsg.
  - apply not_elem_of_nil.
  - rewrite session_cons. cbn [events]. rewrite warnings_app.
    destruct (invoke_warnings c self) as (_ & Hnew & Hmono & _).
    intros [Hin|Hin]%elem_of_app.
    + by apply Hnew in Hin as (? & _).
    + revert Hin. apply IH. set_solver.
Qed.

(** C8 does not hold as worded: while the warnings filter turns warnings
    into errors, [_warn] raises the warning, and, the message not being
    remembered then, the next call with the same message emits it again. *)
Lemma warns_once_and_never_raises_counterexample :
  let self := __init__ "progress.csv" in
  let cs := [CallWarn "slow" FilterError; CallWarn "slow" FilterError] in
  _warn FilterError "slow" self =
    Result (Raised (CsvOutputWarning "slow")) self [Warn "slow"] ∧
  warnings (events (session cs self)) = ["slow"; "slow"] ∧
  ¬ warns_once_and_never_raises.
Proof.
  intros self cs. split_and!; [reflexivity..|].
  intros [H _]. specialize (H FilterError "slow" self). discriminate H.
Qed.

(** C8, amended.  (1) As long as the warnings filter lets the warnings of
    this class pass, no message is emitted twice over the life of a writer.
    (2) Whatever the filter, a message with which [_warn] has once returned
    is never emitted again.  (3) From a call to [disable_warnings] on, no
    call emits any warning, whatever the filter.  (4) [_warn] returns its
    message unless it emits a warning that the filter turns into an error:
    then it raises that warning and leaves the writer as it was.  (5) In
    every case [_warn] leaves the file, the [DictWriter] and the ColumnSet
    as they were, and (6) the file a session leaves is the file the same
    session leaves without its calls to [_warn] and [disable_warnings]. *)
Theorem warnings_once_and_suppressed :
  (∀ cs file_name,
     Forall warn_passes cs →
     NoDup (warnings (events (session cs (__init__ file_name))))) ∧
  (∀ flt msg self cs,
     res (_warn flt msg self) = Returned msg →
     msg ∉ warnings (events (session cs (final (_warn flt msg self))))) ∧
  (∀ self cs,
     warnings (events (session cs (final (disable_warnings self)))) = []) ∧
  (∀ flt msg self,
     res (_warn flt msg self) = Returned msg ∨
     (flt = FilterError ∧ _disable_warnings self = false ∧
      (msg ∉ _warned_once self) ∧
      _warn flt msg self =
        Result (Raised (CsvOutputWarning msg)) self [Warn msg])) ∧
  (∀ flt msg self,
     _log_file (final (_warn flt msg self)) = _log_file self ∧
     _writer (final (_warn flt msg self)) = _writer self ∧
     _fieldnames (final (_warn flt msg self)) = _fieldnames self ∧
     truncated (final (_warn flt msg self)) = truncated self) ∧
  (∀ cs file_name,
     _log_file (final (session cs (__init__ file_name))) =
     _log_file (final (session (filter is_record cs) (__init__ file_name)))).
Proof.
  split_and!.
  - intros cs file_name Hpass. by apply session_warnings.
  - intros flt msg self cs Hres. apply session_not_again.
    revert Hres. rewrite _warn_run.
    destruct (negb _ && bool_decide _); [|cbn; set_solver].
    destruct flt; [cbn; set_solver|done].
  - intros self cs. by apply session_disabled.
  - intros flt msg self. rewrite _warn_run.
    destruct (_disable_warnings self); cbn [negb andb]; [by left|].
    case_bool_decide as Hmsg; [|by left].
    destruct flt; [by left|]. right. by split_and!.
  - intros flt msg self. rewrite _warn_run.
    destruct (negb _ && bool_decide _); [|done]. by destruct flt.
  - intros cs file_name.
    change (_log_file (final (session cs (__init__ file_name))))
      with (_log_file (unwarned (final (session cs (__init__ file_name))))).
    by rewrite <- session_unwarned.
Qed.

Lemma warnings_once_and_suppressed_witness :
  let cs :=
    [CallWarn "slow" FilterPass; CallRecord (ObjStr "text") "";
     CallWarn "slow" FilterPass; CallWarn "late" FilterPass] in
  Forall warn_passes cs ∧
  NoDup (warnings (events (session cs (__init__ "progress.csv")))).
Proof.
  intros cs.
  assert (Forall warn_passes cs) as H by decide_by_compute.
  split; [exact H|].
  exact (proj1 warnings_once_and_suppressed cs "progress.csv" H).
Defined.

(** * The scenario of the spec, run *)

(** After the first call: header [x], row [1]. *)
Example scenario_first_call :
  _log_file (final (session (take 1 scenario) (__init__ "progress.csv"))) =
    [["x"]; ["1"]].
Proof. reflexivity. Qed.

(** After the third: three data rows under the two columns, the first row
    with a blank [y]. *)
Example scenario_file :
  let f := _log_file (final (session scenario (__init__ "progress.csv"))) in
  header_columns f = {[ "x"; "y" ]} ∧
  csv.DictReader f =
    [ <[ "x" := VStr "1" ]> {[ "y" := VStr "" ]};
      <[ "x" := VStr "2" ]> {[ "y" := VStr "5" ]};
      <[ "x" := VStr "3" ]> {[ "y" := VStr "6" ]} ].
Proof. split; reflexivity. Qed.

(** * Further properties *)

(** ** What a session leaves on disk *)

Lemma presented_app cs cs' : presented (cs ++ cs') = presented cs ++ presented cs'.
Proof. apply omap_app. Qed.

Lemma from_first_keyed_app rows rows' :
  from_first_keyed rows ≠ [] →
  from_first_keyed (rows ++ rows') = from_first_keyed rows ++ rows'.
Proof.
  induction rows as [|r rows IH]; [done|]. simpl.
  destruct (decide (r = ∅)); [apply IH|done].
Qed.

Lemma cell_fmap_inv (hd : list string) (g : string → string) key c :
  cell hd (g <$> hd) key = Some c → key ∈ hd ∧ c = g key.
Proof.
  induction hd as [|h hd IH]; [done|]. cbn [fmap list_fmap cell].
  destruct (decide (h = key)) as [->|Hne].
  - intros [= <-]. split; [by left|done].
  - intros [Hin ->]%IH. split; [by right|done].
Qed.

(** *** Rows without carriage return *)

Lemma plain_shown (d : pydict) key : plain_row d → plain (shown d key).
Proof.
  intros H. unfold shown. destruct (d !! key) as [v|] eqn:Hv; [|done].
  by destruct (H key v Hv).
Qed.

Lemma stored_plain fs rec (d : pydict) :
  set_Forall plain fs → plain_row d → stored fs rec d →
  rec = csv._dict_to_list fs d.
Proof.
  intros Hfs Hd (_ & c & -> & Hc). rewrite dict_to_list_shown.
  apply list_fmap_ext. intros i key Hkey.
  apply list_elem_of_lookup_2, elem_of_elements in Hkey.
  destruct (Hc Hfs key Hkey) as [->| ->]; [done|]. by apply plain_shown.
Qed.

Lemma Forall2_stored_plain fs recs (w : list pydict) :
  set_Forall plain fs → Forall plain_row w → Forall2 (stored fs) recs w →
  recs = csv._dict_to_list fs <$> w.
Proof.
  intros Hfs Hw H. induction H as [|rec d recs w Hst _ IH]; [done|].
  apply Forall_cons in Hw as [Hd Hw]. rewrite fmap_cons. f_equal.
  - by apply stored_plain.
  - by apply IH.
Qed.

Lemma dict_to_list_plain fs (d : pydict) :
  plain_row d →
  universal_newlines <$> csv._dict_to_list fs d = csv._dict_to_list fs d.
Proof.
  intros Hd. apply fmap_plain. rewrite dict_to_list_shown.
  apply Forall_fmap, Forall_forall. intros key _. by apply plain_shown.
Qed.

(** A file without carriage return reaches the reader as it is. *)
Lemma read_text_plain fs (w : list pydict) :
  set_Forall plain fs → Forall plain_row w →
  read_text (elements fs :: (csv._dict_to_list fs <$> w)) =
    elements fs :: (csv._dict_to_list fs <$> w).
Proof.
  intros Hfs Hw. unfold read_text. rewrite fmap_cons, elements_plain by done.
  f_equal. rewrite <- list_fmap_compose. apply list_fmap_ext.
  intros i d Hd. simpl. apply dict_to_list_plain.
  eapply (proj1 (Forall_forall _ _) Hw). by eapply list_elem_of_lookup_2.
Qed.

Lemma elem_of_from_first_keyed rows (d : pydict) :
  d ∈ from_first_keyed rows → d ∈ rows.
Proof.
  induction rows as [|r rows IH]; [done|]. simpl.
  destruct (decide (r = ∅)); [|done]. intros ?%IH. by right.
Qed.

Lemma written_plain cs :
  Forall plain_row (presented cs) → Forall plain_row (written cs).
Proof.
  intros H. apply Forall_forall. intros d Hd%elem_of_from_first_keyed.
  by eapply (proj1 (Forall_forall _ _) H).
Qed.

Lemma keys_seen_plain cs :
  Forall plain_row (presented cs) → set_Forall plain (keys_seen cs).
Proof.
  intros H key Hkey. unfold keys_seen in Hkey.
  apply elem_of_union_list in Hkey as (X & HX & Hkey).
  apply list_elem_of_fmap in HX as (d & -> & Hd).
  apply elem_of_dom in Hkey as [v Hv].
  apply (proj1 (Forall_forall _ _) H) in Hd. by destruct (Hd key v Hv).
Qed.

(** The file of a session whose rows hold no carriage return. *)
Lemma session_file_plain cs file_name :
  Forall plain_row (presented cs) →
  written cs ≠ [] →
  _log_file (final (session cs (__init__ file_name))) =
    elements (keys_seen cs) :: (csv._dict_to_list (keys_seen cs) <$> written cs).
Proof.
  intros Hplain Hw. pose proof (session_file cs file_name) as H. cbv zeta in H.
  pose proof (written_plain cs Hplain) as Hwp.
  destruct (written cs) as [|r w]; [done|].
  destruct H as ((recs & -> & Hrecs) & _). f_equal.
  apply Forall2_stored_plain; [by apply keys_seen_plain|done..].
Qed.

(** X1, the file read back.  After any sequence of calls on a fresh writer
    in which no key and no text of a value holds a carriage return, the data
    rows of the file are the rows written, in the order they were presented,
    each laid out along the header: under each column the text of the row's
    value, or the empty string where the row has no such key.  Read back
    through the handle with [csv.DictReader], as [rewriteCSV] does, the file
    gives one dict per row written, with exactly the columns of the
    ColumnSet as keys. *)
Theorem session_read_back cs file_name :
  let self := final (session cs (__init__ file_name)) in
  let f := _log_file self in
  Forall plain_row (presented cs) →
  data_rows f = (λ d, shown d <$> header f) <$> written cs ∧
  Forall2
    (λ (row d : pydict),
       ∀ key, row !! key =
              if decide (key ∈ ColumnSet self) then Some (VStr (shown d key))
              else None)
    (csv.DictReader (read_text f)) (written cs).
Proof.
  intros self f Hplain. subst f.
  pose proof (session_file cs file_name) as H. fold self in H. cbv zeta in H.
  pose proof (session_file_plain cs file_name Hplain) as Hf. fold self in Hf.
  pose proof (keys_seen_plain cs Hplain) as Hkeys.
  pose proof (written_plain cs Hplain) as Hwp.
  destruct (written cs) as [|r w] eqn:Hw.
  - destruct H as (-> & _). split; [done|constructor].
  - destruct H as (_ & -> & Hne). rewrite Hf by done.
    rewrite read_text_plain by done.
    unfold data_rows, header. cbn [tail head default]. unfold id. split.
    + apply list_fmap_ext. intros _ d _. apply dict_to_list_shown.
    + rewrite DictReader_written by done. apply Forall2_fmap_l.
      apply Forall_Forall2_diag, Forall_forall. intros d _ key.
      rewrite dict_to_list_shown, reader_row_lookup.
      destruct (decide (key ∈ elements (keys_seen cs))) as [Hk|Hk];
        rewrite elem_of_elements in Hk.
      * by rewrite decide_True.
      * by rewrite decide_False.
Qed.

Lemma session_read_back_witness :
  let self := final (session scenario (__init__ "progress.csv")) in
  let f := _log_file self in
  Forall plain_row (presented scenario) ∧
  data_rows f = (λ d, shown d <$> header f) <$> written scenario.
Proof.
  intros self f.
  assert (Forall plain_row (presented scenario)) as H by decide_by_compute.
  split; [exact H|].
  exact (proj1 (session_read_back scenario "progress.csv" H)).
Defined.

(** X2, no blank record.  After any sequence of calls on a fresh writer the
    file is empty exactly when no presented row had a key, and no record of
    the file, header or data row, is without cells: the header is only ever
    written with a column in it, so [csv.DictReader], which skips blank
    records, skips nothing. *)
Theorem no_blank_record cs file_name :
  let f := _log_file (final (session cs (__init__ file_name))) in
  (f = [] ↔ keys_seen cs = ∅) ∧ Forall (λ rec, rec ≠ []) f.
Proof.
  intros f. subst f. pose proof (session_file cs file_name) as H.
  cbv zeta in H. destruct (written cs) as [|r w].
  - destruct H as (-> & _ & ->). split; [done|constructor].
  - destruct H as ((recs & -> & Hrecs) & _ & Hne).
    assert (elements (keys_seen cs) ≠ []) as Hel.
    { intros Hnil. apply elements_empty_inv in Hnil. apply Hne.
      by apply leibniz_equiv. }
    split; [split; [done|by intros ?]|].
    constructor; [done|].
    eapply Forall2_Forall_l; [exact Hrecs|].
    apply Forall_forall. intros d _ rec (_ & c & -> & _) Hnil.
    by apply fmap_nil_inv in Hnil.
Qed.

Lemma keys_seen_app cs cs' : keys_seen cs ⊆ keys_seen (cs ++ cs').
Proof.
  unfold keys_seen. rewrite presented_app, fmap_app, union_list_app_L. set_solver.
Qed.

(** *** One call, cell by cell *)

(** The text under a column of a record read back and laid out again. *)
Lemma cell_read_back (fs fs' : gset string) (c : string → string) key :
  set_Forall plain fs → key ∈ fs → key ∈ fs' →
  cell (elements fs')
    (csv._dict_to_list fs'
       (csv.reader_row (universal_newlines <$> elements fs)
          (universal_newlines <$> (c <$> elements fs))))
    key =
  Some (universal_newlines (c key)).
Proof.
  intros Hplain Hkey Hkey'. rewrite cell_written by done. f_equal.
  rewrite elements_plain by done. rewrite <- list_fmap_compose.
  unfold shown. rewrite reader_row_lookup.
  by rewrite decide_True by (by apply elem_of_elements).
Qed.

(** A cell of plain text under a column, over one call. *)
Lemma invoke_keeps_cell cs c file_name i row key x :
  let f := _log_file (final (session cs (__init__ file_name))) in
  let f' := _log_file (final (session (cs ++ [c]) (__init__ file_name))) in
  set_Forall plain (keys_seen (cs ++ [c])) →
  plain x →
  data_rows f !! i = Some row →
  cell (header f) row key = Some x →
  ∃ row', data_rows f' !! i = Some row' ∧ cell (header f') row' key = Some x.
Proof.
  intros f f' Hplain Hx. subst f f'. rewrite final_session_snoc.
  set (self := final (session cs (__init__ file_name))).
  pose proof (session_holds_rows cs file_name) as H. fold self in H.
  unfold holds_rows in H.
  assert (keys_seen cs ⊆ keys_seen (cs ++ [c])) as Hseen by apply keys_seen_app.
  destruct c as [[t| |] prefix|msg flt|].
  - cbn [invoke]. fold (keys_seen cs) in H.
    destruct (from_first_keyed (presented cs)) as [|r w] eqn:Hw.
    { destruct H as (-> & _). done. }
    destruct H as ((recs & Hf & Hrecs) & Hwr & Hfs). rewrite Hf.
    unfold data_rows at 1, header at 1. cbn [tail head default]. unfold id.
    intros Hrow Hcell.
    assert (∃ c0, row = c0 <$> elements (keys_seen cs)) as [c0 ->].
    { destruct (Forall2_lookup_l _ _ _ _ _ Hrecs Hrow) as (d & _ & _ & c0 & -> & _).
      by exists c0. }
    apply cell_fmap_inv in Hcell as [Hkey ->]. apply elem_of_elements in Hkey.
    set (d := as_primitive_dict t).
    destruct (decide (dom d ⊆ keys_seen cs)) as [Hsub|Hsub].
    + rewrite (record_subset self (keys_seen cs) t prefix Hfs Hwr Hsub).
      cbn [final set_log_file _log_file]. rewrite Hf.
      unfold data_rows, header. cbn [tail head default app]. unfold id.
      exists (c0 <$> elements (keys_seen cs)). split.
      * by apply lookup_app_l_Some.
      * apply cell_fmap. by apply elem_of_elements.
    + rewrite (record_new_keys self (keys_seen cs) _ t prefix Hfs Hwr Hsub).
      cbn [final with_columns _log_file]. rewrite Hf.
      rewrite DictReader_read_text.
      2:{ apply from_first_keyed_seen. by rewrite Hw. }
      2:{ eapply Forall2_Forall_l; [exact Hrecs|].
          apply Forall_forall. intros d' _ rec. apply stored_length. }
      unfold data_rows, header. cbn [tail head default]. unfold id.
      fold d. set (fs' := keys_seen cs ∪ dom d).
      eexists. split.
      * apply lookup_app_l_Some. rewrite list_lookup_fmap, list_lookup_fmap.
        rewrite Hrow. reflexivity.
      * cbv beta. rewrite cell_read_back.
        -- by rewrite Hx.
        -- intros k Hk. apply Hplain. by apply Hseen.
        -- done.
        -- subst fs'. set_solver.
  - intros Hrow Hcell. by exists row.
  - intros Hrow Hcell. by exists row.
  - destruct (invoke_warn_fields msg flt self) as (-> & _). intros ??. by exists row.
  - intros Hrow Hcell. by exists row.
Qed.

(** X3, cells persist.  Let a cell be on disk under some column after some
    calls on a fresh writer, with a text without carriage return, and let no
    key of any row presented hold a carriage return.  Then the cell is still
    there after any further calls, in the same data row, under the same
    column and with the same text: neither appending nor rewriting drops,
    moves or changes it. *)
Theorem cells_persist cs cs' file_name i row key c :
  let f := _log_file (final (session cs (__init__ file_name))) in
  let f' := _log_file (final (session (cs ++ cs') (__init__ file_name))) in
  set_Forall plain (keys_seen (cs ++ cs')) →
  plain c →
  data_rows f !! i = Some row →
  cell (header f) row key = Some c →
  ∃ row', data_rows f' !! i = Some row' ∧ cell (header f') row' key = Some c.
Proof.
  cbv zeta. intros Hplain Hc Hrow Hcell.
  induction cs' as [|c' cs' IH] using rev_ind.
  - rewrite app_nil_r. by exists row.
  - destruct IH as (row1 & Hrow1 & Hcell1).
    { intros k Hk. apply Hplain. rewrite app_assoc. by apply keys_seen_app. }
    rewrite app_assoc.
    apply (invoke_keeps_cell (cs ++ cs') c' file_name i row1 key c);
      [by rewrite <- app_assoc|done..].
Qed.

Lemma cells_persist_witness :
  let f := _log_file (final (session (take 1 scenario) (__init__ "progress.csv"))) in
  let f' :=
    _log_file (final (session (take 1 scenario ++ drop 1 scenario)
                        (__init__ "progress.csv"))) in
  set_Forall plain (keys_seen (take 1 scenario ++ drop 1 scenario)) ∧
  plain "1" ∧
  data_rows f !! 0%nat = Some ["1"] ∧
  cell (header f) ["1"] "x" = Some "1" ∧
  ∃ row', data_rows f' !! 0%nat = Some row' ∧ cell (header f') row' "x" = Some "1".
Proof.
  intros f f'.
  assert (set_Forall plain (keys_seen (take 1 scenario ++ drop 1 scenario))) as H0
    by decide_by_compute.
  assert (plain "1") as Hp by reflexivity.
  assert (data_rows f !! 0%nat = Some ["1"]) as H1 by reflexivity.
  assert (cell (header f) ["1"] "x" = Some "1") as H2 by reflexivity.
  split; [exact H0|]. split; [exact Hp|]. split; [exact H1|]. split; [exact H2|].
  exact (cells_persist (take 1 scenario) (drop 1 scenario) "progress.csv"
           0 ["1"] "x" "1" H0 Hp H1 H2).
Defined.

(** ** [rewriteCSV] called on its own *)

(** [rewriteCSV] on a writer that stores, without carriage return, the rows
    [w] under the columns [fs]. *)
Lemma rewriteCSV_stored l self (fs : gset string) (w : list pydict) :
  _fieldnames self = Some fs →
  fs ≠ ∅ →
  (∀ d, d ∈ w → dom d ⊆ fs) →
  set_Forall plain fs →
  Forall plain_row w →
  _log_file self = elements fs :: (csv._dict_to_list fs <$> w) →
  rewriteCSV l self =
    Result (Returned ())
      (with_columns (fs ∪ list_to_set l)
         (elements (fs ∪ list_to_set l) ::
            (csv._dict_to_list (fs ∪ list_to_set l) <$> w))
         (truncate_log_file self)) [].
Proof.
  intros Hfs Hne Hdom Hplain Hw Hf. rewrite (rewriteCSV_run l self fs Hfs).
  rewrite Hf, read_text_plain, DictReader_written by done. do 3 f_equal.
  rewrite <- list_fmap_compose. apply list_fmap_ext.
  intros i d Hd. simpl. apply dict_to_list_reread.
  apply Hdom. by eapply list_elem_of_lookup_2.
Qed.

(** What a writer with a header holds, after a session. *)
Lemma session_stored cs file_name :
  let self := final (session cs (__init__ file_name)) in
  _writer self ≠ None →
  written cs ≠ [] ∧
  _fieldnames self = Some (keys_seen cs) ∧
  _writer self = Some {| csv.fieldnames := Some (keys_seen cs) |} ∧
  keys_seen cs ≠ ∅ ∧
  (∀ d, d ∈ written cs → dom d ⊆ keys_seen cs) ∧
  ∃ recs, _log_file self = elements (keys_seen cs) :: recs ∧
          Forall2 (stored (keys_seen cs)) recs (written cs).
Proof.
  intros self Hw. pose proof (session_holds_rows cs file_name) as H.
  fold self in H. unfold holds_rows in H. unfold written, keys_seen.
  destruct (from_first_keyed (presented cs)) as [|r w] eqn:Hfk.
  - by destruct H as (_ & ? & _).
  - destruct H as (Hf & Hwr & Hfs). split_and!; try done.
    + apply from_first_keyed_seen. by rewrite Hfk.
    + intros d Hd. apply from_first_keyed_dom. by rewrite Hfk.
Qed.

(** X4, [rewriteCSV] keeps the rows.  Called on a writer that has written
    its header, with any list of field names, [rewriteCSV] returns and
    emits nothing; it truncates the file once; the ColumnSet and the header
    grow by the names given; and the file has as many data rows as before.
    If moreover no key and no text of a value presented so far holds a
    carriage return, the data rows are the rows written so far, each laid
    out along the new header, blank under the new columns, and with no new
    name among those given the file is rewritten to what it was. *)
Theorem rewriteCSV_keeps_rows cs file_name l :
  let self := final (session cs (__init__ file_name)) in
  let r := rewriteCSV l self in
  let f := _log_file (final r) in
  _writer self ≠ None →
  res r = Returned () ∧ events r = [] ∧
  truncated (final r) = S (truncated self) ∧
  ColumnSet (final r) = ColumnSet self ∪ list_to_set l ∧
  header_columns f = ColumnSet (final r) ∧
  length (data_rows f) = length (data_rows (_log_file self)) ∧
  (Forall plain_row (presented cs) →
   data_rows f = (λ d, shown d <$> header f) <$> written cs ∧
   (list_to_set l ⊆ ColumnSet self → f = _log_file self)).
Proof.
  intros self r f Hw. subst f r.
  destruct (session_stored cs file_name Hw)
    as (Hwr' & Hfs & Hwr & Hne & Hdom & recs & Hf & Hrecs).
  fold self in Hfs, Hwr, Hf.
  rewrite (rewriteCSV_run l self _ Hfs).
  cbn [res final events]. unfold ColumnSet, header_columns, data_rows, header.
  cbn [with_columns truncate_log_file truncated _fieldnames _log_file default
         head tail].
  unfold id. rewrite Hfs. cbn [default]. split_and!; try done.
  - apply list_to_set_elements_L.
  - rewrite Hf, DictReader_read_text; [|done|].
    + cbn [tail]. by rewrite !length_fmap.
    + eapply Forall2_Forall_l; [exact Hrecs|].
      apply Forall_forall. intros d' _ rec. apply stored_length.
  - intros Hplain.
    pose proof (session_file_plain cs file_name Hplain Hwr') as Hf'.
    fold self in Hf'.
    pose proof (keys_seen_plain cs Hplain) as Hkeys.
    pose proof (written_plain cs Hplain) as Hwp.
    rewrite Hf', read_text_plain, DictReader_written by done.
    assert (∀ fs', csv._dict_to_list fs' <$>
                     ((λ d, csv.reader_row (elements (keys_seen cs))
                              (csv._dict_to_list (keys_seen cs) d)) <$> written cs) =
                   csv._dict_to_list fs' <$> written cs) as Hre.
    { intros fs'. rewrite <- list_fmap_compose. apply list_fmap_ext.
      intros i d Hd. simpl. apply dict_to_list_reread.
      apply Hdom. by eapply list_elem_of_lookup_2. }
    rewrite Hre. split.
    + apply list_fmap_ext. intros _ d _. apply dict_to_list_shown.
    + intros Hsub. by replace (keys_seen cs ∪ list_to_set l) with (keys_seen cs)
        by set_solver.
Qed.

Lemma rewriteCSV_keeps_rows_witness :
  let self := final (session scenario (__init__ "progress.csv")) in
  let r := rewriteCSV ["z"; "x"] self in
  _writer self ≠ None ∧
  truncated (final r) = S (truncated self) ∧
  ColumnSet (final r) = ColumnSet self ∪ list_to_set ["z"; "x"].
Proof.
  intros self r.
  assert (_writer self ≠ None) as H by decide_by_compute.
  split; [exact H|].
  pose proof (rewriteCSV_keeps_rows scenario "progress.csv" ["z"; "x"] H)
    as (_ & _ & H1 & H2 & _).
  exact (conj H1 H2).
Defined.

(** X5, two rewrites are one.  On a writer that has written its header,
    where no key and no text of a value presented so far holds a carriage
    return, and for names [l1] without carriage return, [rewriteCSV] with
    [l1] and then with [l2] leaves the file, the [DictWriter] and the
    ColumnSet as one [rewriteCSV] with both lists does; only the file has
    been truncated once more. *)
Theorem rewriteCSV_twice cs file_name l1 l2 :
  let self := final (session cs (__init__ file_name)) in
  let r12 := (rewriteCSV l1;; rewriteCSV l2) self in
  let r := rewriteCSV (l1 ++ l2) self in
  _writer self ≠ None →
  Forall plain_row (presented cs) →
  Forall plain l1 →
  res r12 = res r ∧ events r12 = events r ∧
  _log_file (final r12) = _log_file (final r) ∧
  _writer (final r12) = _writer (final r) ∧
  _fieldnames (final r12) = _fieldnames (final r) ∧
  truncated (final r12) = S (truncated (final r)).
Proof.
  intros self r12 r Hw Hplain Hl1. subst r12 r.
  destruct (session_stored cs file_name Hw) as (Hwr' & Hfs & Hwr & Hne & Hdom & _).
  fold self in Hfs, Hwr.
  pose proof (session_file_plain cs file_name Hplain Hwr') as Hf. fold self in Hf.
  pose proof (keys_seen_plain cs Hplain) as Hkeys.
  pose proof (written_plain cs Hplain) as Hwp.
  rewrite (bind_pure _ _ _ _ _
             (rewriteCSV_stored l1 self _ _ Hfs Hne Hdom Hkeys Hwp Hf)).
  rewrite (rewriteCSV_stored (l1 ++ l2) self _ _ Hfs Hne Hdom Hkeys Hwp Hf).
  set (fs1 := keys_seen cs ∪ list_to_set l1).
  rewrite (rewriteCSV_stored l2 _ fs1 (written cs)); try done.
  - rewrite list_to_set_app_L.
    replace (keys_seen cs ∪ (list_to_set l1 ∪ list_to_set l2))
      with (fs1 ∪ list_to_set l2) by set_solver.
    done.
  - set_solver.
  - intros d Hd. specialize (Hdom d Hd). set_solver.
  - intros k [Hk|Hk]%elem_of_union; [by apply Hkeys|].
    apply elem_of_list_to_set in Hk. by eapply (proj1 (Forall_forall _ _) Hl1).
Qed.

Lemma rewriteCSV_twice_witness :
  let self := final (session scenario (__init__ "progress.csv")) in
  _writer self ≠ None ∧
  Forall plain_row (presented scenario) ∧
  Forall plain ["z"] ∧
  _log_file (final ((rewriteCSV ["z"];; rewriteCSV ["x"; "t"]) self)) =
    _log_file (final (rewriteCSV (["z"] ++ ["x"; "t"]) self)).
Proof.
  intros self.
  assert (_writer self ≠ None) as H by decide_by_compute.
  assert (Forall plain_row (presented scenario)) as H1 by decide_by_compute.
  assert (Forall plain ["z"]) as H2 by decide_by_compute.
  split; [exact H|]. split; [exact H1|]. split; [exact H2|].
  exact (proj1 (proj2 (proj2
           (rewriteCSV_twice scenario "progress.csv" ["z"] ["x"; "t"] H H1 H2)))).
Defined.

(** X6, [rewriteCSV] before any header.  On a writer whose
    [self._fieldnames] still is [None], [rewriteCSV] raises [TypeError],
    whatever names it is given; by then it has truncated the file, which is
    left empty, and it has emitted nothing. *)
Theorem rewriteCSV_without_fieldnames self l :
  let r := rewriteCSV l self in
  _fieldnames self = None →
  (∃ msg, res r = Raised (TypeError msg)) ∧
  _log_file (final r) = [] ∧
  _fieldnames (final r) = None ∧
  events r = [].
Proof.
  intros r Hfs. subst r. unfold rewriteCSV.
  rewrite (bind_pure _ _ self (csv.DictReader (read_text (_log_file self))) self) by done.
  cbv beta.
  rewrite (bind_pure _ _ self () (truncate_log_file self)) by done. cbv beta.
  destruct l as [|key l].
  - cbn [for_].
    rewrite (bind_pure _ _ _ () (truncate_log_file self)) by done. cbv beta.
    rewrite (bind_pure _ _ _ None (truncate_log_file self))
      by (unfold gets; cbn; by rewrite Hfs).
    cbv beta.
    set (s2 := set_writer (Some {| csv.fieldnames := None |}) (truncate_log_file self)).
    rewrite (bind_pure _ _ _ () s2) by done. cbv beta.
    erewrite bind_raised; [|reflexivity].
    cbn. split_and!; eauto.
  - cbn [for_].
    erewrite bind_raised.
    2:{ erewrite bind_raised; [reflexivity|].
        unfold add_fieldname. erewrite (bind_pure _ _ _ None); [reflexivity|].
        unfold gets. cbn. by rewrite Hfs. }
    cbn. split_and!; eauto.
Qed.

Lemma rewriteCSV_without_fieldnames_witness :
  let self := __init__ "progress.csv" in
  _fieldnames self = None ∧ _log_file (final (rewriteCSV ["x"] self)) = [].
Proof.
  intros self.
  assert (_fieldnames self = None) as H by reflexivity.
  split; [exact H|].
  exact (proj1 (proj2 (rewriteCSV_without_fieldnames self ["x"] H))).
Defined.

(** ** [record] at the edges *)

(** X7, a writer without field names.  Where a [DictWriter] is in place but
    [self._fieldnames] is [None] — the state [rewriteCSV([])] leaves a fresh
    writer in, when it raises — [record] raises [AttributeError] for every
    tabular row, the row without keys included; the writer is left as it
    was, nothing is written and nothing is marked. *)
Theorem record_without_fieldnames self t prefix :
  _writer self ≠ None →
  _fieldnames self = None →
  record (ObjTabular t) prefix self =
    Result
      (Raised (AttributeError "'NoneType' object has no attribute 'issuperset'"))
      self [].
Proof.
  intros Hw Hfs. unfold record.
  rewrite (bind_pure _ _ self (_writer self) self) by done. cbv beta.
  destruct (_writer self) as [w|] eqn:Hw'; [|done].
  rewrite (bool_decide_eq_false_2 (Some w = None)) by done.
  rewrite andb_false_r.
  rewrite (bind_pure _ _ self () self) by done. cbv beta.
  apply bind_raised. unfold grow_columns.
  rewrite (bind_pure _ _ self None self); [done|].
  unfold gets. by rewrite Hfs.
Qed.

Lemma record_without_fieldnames_witness :
  let self := final (rewriteCSV [] (__init__ "progress.csv")) in
  let t := {| as_primitive_dict := {[ "x" := VInt 1 ]} |} in
  _writer self ≠ None ∧
  _fieldnames self = None ∧
  res (record (ObjTabular t) "" self) =
    Raised (AttributeError "'NoneType' object has no attribute 'issuperset'").
Proof.
  intros self t.
  assert (_writer self ≠ None) as H1 by decide_by_compute.
  assert (_fieldnames self = None) as H2 by reflexivity.
  split; [exact H1|]. split; [exact H2|].
  by rewrite (record_without_fieldnames self t "" H1 H2).
Defined.

(** X8, the first row with a key.  On a writer without [DictWriter], a row
    with at least one key makes [record] return; the ColumnSet becomes the
    keys of the row; two records are appended to the file, the header with
    those keys and the row with the text of each value under its key; and
    the keys marked are the keys of the row, each once: nothing is padded. *)
Theorem first_row_writes_header self t prefix :
  let d := as_primitive_dict t in
  let r := record (ObjTabular t) prefix self in
  _writer self = None →
  d ≠ ∅ →
  res r = Returned () ∧
  ColumnSet (final r) = dom d ∧
  _writer (final r) = Some {| csv.fieldnames := Some (dom d) |} ∧
  _log_file (final r) =
    _log_file self ++ [elements (dom d); shown d <$> elements (dom d)] ∧
  Forall (λ key, ∃ v, d !! key = Some v ∧ shown d key = csv_text v)
         (elements (dom d)) ∧
  ∃ ks, events r = Mark <$> ks ∧ ks ≡ₚ elements (dom d).
Proof.
  intros d r Hw Hd. subst r. rewrite record_first by done. fold d.
  cbn [res final events]. unfold ColumnSet.
  cbn [with_columns _fieldnames _writer _log_file default].
  rewrite dict_to_list_shown. split_and!; try done.
  - apply Forall_forall. intros key Hkey%elem_of_elements.
    apply elem_of_dom in Hkey as [v Hv]. exists v. unfold shown. by rewrite Hv.
  - eexists. split; [done|]. apply NoDup_Permutation.
    + apply NoDup_keys.
    + apply NoDup_elements.
    + intros k. by rewrite elem_of_keys, elem_of_elements.
Qed.

Lemma first_row_writes_header_witness :
  let self := __init__ "progress.csv" in
  let t := {| as_primitive_dict := {[ "x" := VInt 1 ]} |} in
  _writer self = None ∧
  as_primitive_dict t ≠ ∅ ∧
  _log_file (final (record (ObjTabular t) "" self)) =
    _log_file self ++
      [elements (dom (as_primitive_dict t));
       shown (as_primitive_dict t) <$> elements (dom (as_primitive_dict t))].
Proof.
  intros self t.
  assert (_writer self = None) as H1 by reflexivity.
  assert (as_primitive_dict t ≠ ∅) as H2 by decide_by_compute.
  split; [exact H1|]. split; [exact H2|].
  exact (proj1 (proj2 (proj2 (proj2
           (first_row_writes_header self t "" H1 H2))))).
Defined.



(** ** Warnings, exactly *)

(** X10, [record] and [rewriteCSV] never warn.  In any state of the writer
    and however they end, [record] and [rewriteCSV] emit no warning and
    leave alone both the set of messages warned of and the flag that
    disables warnings: a rewrite of the file, however large, is silent. *)
Theorem record_and_rewriteCSV_are_quiet :
  (∀ data prefix self,
     let r := record data prefix self in
     warnings (events r) = [] ∧
     _warned_once (final r) = _warned_once self ∧
     _disable_warnings (final r) = _disable_warnings self) ∧
  (∀ l self,
     let r := rewriteCSV l self in
     warnings (events r) = [] ∧
     _warned_once (final r) = _warned_once self ∧
     _disable_warnings (final r) = _disable_warnings self).
Proof.
  split.
  - intros data prefix self.
    destruct (quiet_record data prefix self) as (? & ? & ?). by split_and!.
  - intros l self.
    destruct (quiet_rewriteCSV l self) as (? & ? & ?). by split_and!.
Qed.

Lemma warned_while_enabled_cons msg c cs :
  warned_while_enabled msg (c :: cs) ↔
  (∃ flt, c = CallWarn msg flt) ∨
  (c ≠ CallDisableWarnings ∧ warned_while_enabled msg cs).
Proof.
  unfold warned_while_enabled. split.
  - intros (cs1 & cs2 & flt & Heq & Hnot). destruct cs1 as [|c' cs1].
    + left. exists flt. by injection Heq.
    + right. injection Heq as -> ->. apply not_elem_of_cons in Hnot as [? ?].
      split; [done|]. by exists cs1, cs2, flt.
  - intros [[flt ->]|(Hc & cs1 & cs2 & flt & -> & Hnot)].
    + exists [], cs, flt. split; [done|]. apply not_elem_of_nil.
    + exists (c :: cs1), cs2, flt. split; [done|]. by apply not_elem_of_cons.
Qed.

Lemma session_warning_iff cs self msg :
  msg ∈ warnings (events (session cs self)) ↔
  _disable_warnings self = false ∧ (msg ∉ _warned_once self) ∧
  warned_while_enabled msg cs.
Proof.
  revert self. induction cs as [|c cs IH]; intros self.
  - split; [by intros ?%elem_of_nil|].
    intros (_ & _ & cs1 & cs2 & flt & Heq & _). by destruct cs1.
  - rewrite session_cons. cbn [events].
    rewrite warnings_app, elem_of_app, IH, warned_while_enabled_cons.
    destruct c as [data prefix|m flt|].
    + destruct (quiet_record data prefix self) as (HW & HD & Hev).
      cbn [invoke]. rewrite HW, HD, Hev. split.
      * intros [?%elem_of_nil|?]; [done|]. naive_solver.
      * intros (? & ? & [[? ?]|[_ ?]]); [done|]. by right.
    + rewrite invoke_warn_run.
      destruct (_disable_warnings self) eqn:Hdis; cbn [negb andb].
      { cbn [final events set_warned_once _warned_once _disable_warnings].
        rewrite Hdis. split; [intros [?%elem_of_nil|?]|]; naive_solver. }
      case_bool_decide as Hm.
      * assert (warnings [Warn m] = [m]) as Hwm by done.
        destruct flt; cbn [final events set_warned_once _warned_once
          _disable_warnings]; rewrite Hwm, list_elem_of_singleton, ?Hdis.
        -- split.
           ++ intros [->|(_ & Hnot & Hw)]; [by eauto 10|].
              split_and!; [done|set_solver|]. right. by split.
           ++ intros (_ & Hnot & Hor).
              destruct (decide (msg = m)) as [->|Hne]; [by left|]. right.
              destruct Hor as [[? [= ->]]|[_ Hw]]; [done|].
              split_and!; [done|set_solver|done].
        -- split.
           ++ intros [->|(Hd & Hnot & Hw)]; [by eauto 10|].
              split_and!; [done..|]. right. by split.
           ++ intros (Hd & Hnot & Hor).
              destruct (decide (msg = m)) as [->|Hne]; [by left|]. right.
              destruct Hor as [[? [= ->]]|[_ Hw]]; [done|].
              by split_and!.
      * cbn [final events set_warned_once _warned_once _disable_warnings
          warnings omap list_omap]. rewrite ?Hdis. split.
        -- intros [?%elem_of_nil|(_ & Hnot & Hw)]; [done|].
           split_and!; [done|set_solver|]. right. by split.
        -- intros (_ & Hnot & [[? [= ->]]|[_ Hw]]); [done|]. right.
           split_and!; [done| |done]. set_solver.
    + cbn [invoke disable_warnings modify final events set_disable_warnings
        _disable_warnings _warned_once warnings omap list_omap].
      split.
      * intros [?%elem_of_nil|(? & _)]; done.
      * intros (_ & _ & [[? ?]|[? _]]); done.
Qed.

(** X11, which warnings are emitted.  Over the life of a writer, a message
    is emitted as a warning exactly when it is passed to [_warn] at some
    point before any call to [disable_warnings]: the first such call does
    emit it. *)
Theorem warning_emitted_iff cs file_name msg :
  msg ∈ warnings (events (session cs (__init__ file_name))) ↔
  warned_while_enabled msg cs.
Proof.
  rewrite session_warning_iff. cbn [__init__ _disable_warnings _warned_once].
  split; [by intros (_ & _ & ?)|]. intros H. split_and!; [done|set_solver|done].
Qed.

(** ** Growth *)

(** X12, the file only grows.  Whatever calls follow, the columns of the
    header stay in the header, the ColumnSet keeps its columns, and the file
    keeps at least as many data rows: no call removes a column or a row. *)
Theorem file_only_grows cs cs' file_name :
  let self := final (session cs (__init__ file_name)) in
  let self' := final (session (cs ++ cs') (__init__ file_name)) in
  header_columns (_log_file self) ⊆ header_columns (_log_file self') ∧
  ColumnSet self ⊆ ColumnSet self' ∧
  (length (data_rows (_log_file self)) ≤ length (data_rows (_log_file self')))%nat.
Proof.
  intros self self'. subst self self'.
  pose proof (session_file cs file_name) as H.
  pose proof (session_file (cs ++ cs') file_name) as H'.
  cbv zeta in H, H'. unfold written in H, H'. rewrite presented_app in H'.
  pose proof (keys_seen_app cs cs') as Hsub.
  destruct (from_first_keyed (presented cs)) as [|r w] eqn:Hw.
  - destruct H as (-> & -> & _). split_and!; [set_solver..|simpl; lia].
  - rewrite from_first_keyed_app in H' by (by rewrite Hw). rewrite Hw in H'.
    destruct H as ((recs & -> & Hrecs) & -> & _). cbn [app] in H'.
    destruct H' as ((recs' & -> & Hrecs') & -> & _).
    unfold header_columns, header, data_rows. cbn [head tail default]. unfold id.
    rewrite !list_to_set_elements_L. split_and!; [done..|].
    apply Forall2_length in Hrecs, Hrecs'. rewrite Hrecs, Hrecs'.
    cbn [length]. rewrite length_app. lia.
Qed.

(** X13, columns declared ahead.  On a writer that has written its header,
    after [rewriteCSV] with some names a row whose keys are columns already
    or are among those names is appended by [record] without another
    rewrite: the file handle is not truncated again, the file [rewriteCSV]
    left is a prefix of the file afterwards, and the ColumnSet is the one
    [rewriteCSV] left. *)
Theorem record_after_rewriteCSV cs file_name l t prefix :
  let self := final (session cs (__init__ file_name)) in
  let self1 := final (rewriteCSV l self) in
  let r := record (ObjTabular t) prefix self1 in
  _writer self ≠ None →
  dom (as_primitive_dict t) ⊆ ColumnSet self ∪ list_to_set l →
  res r = Returned () ∧
  truncated (final r) = truncated self1 ∧
  final r =
    set_log_file
      (_log_file self1 ++
         [shown (as_primitive_dict t) <$> elements (ColumnSet self1)])
      self1 ∧
  ColumnSet (final r) = ColumnSet self ∪ list_to_set l.
Proof.
  intros self self1 r Hw Hsub. subst r self1.
  destruct (session_stored cs file_name Hw) as (_ & Hfs & Hwr & _).
  fold self in Hfs, Hwr. unfold ColumnSet in Hsub. rewrite Hfs in Hsub.
  cbn [default] in Hsub.
  rewrite (rewriteCSV_run l self _ Hfs). cbn [final].
  set (fs' := keys_seen cs ∪ list_to_set l) in *.
  set (s1 := with_columns fs' _ _).
  rewrite (record_subset s1 fs' t prefix eq_refl eq_refl Hsub).
  cbn [res final]. rewrite dict_to_list_shown. unfold ColumnSet.
  cbn [s1 with_columns set_log_file _fieldnames truncated default]. rewrite Hfs.
  by split_and!.
Qed.

Lemma record_after_rewriteCSV_witness :
  let self := final (session scenario (__init__ "progress.csv")) in
  let self1 := final (rewriteCSV ["z"] self) in
  let t := {| as_primitive_dict := <[ "x" := VInt 4 ]> {[ "z" := VStr "late" ]} |} in
  let r := record (ObjTabular t) "" self1 in
  _writer self ≠ None ∧
  dom (as_primitive_dict t) ⊆ ColumnSet self ∪ list_to_set ["z"] ∧
  ColumnSet (final r) = ColumnSet self ∪ list_to_set ["z"].
Proof.
  intros self self1 t r.
  assert (_writer self ≠ None) as H1 by decide_by_compute.
  assert (dom (as_primitive_dict t) ⊆ ColumnSet self ∪ list_to_set ["z"]) as H2
    by decide_by_compute.
  split; [exact H1|]. split; [exact H2|].
  exact (proj2 (proj2 (proj2
           (record_after_rewriteCSV scenario "progress.csv" ["z"] t "" H1 H2)))).
Defined.
